(** * Lazy entity references (packages/core/src/entity/Reference.ts)

    A shallow embedding of the [Reference] wrapper of the ORM core and of the
    free function [rel], over an explicit JavaScript heap, together with the
    properties of the wrapper that the specification states.

    Objects live in a heap indexed by locations, so that identity ([===] on
    objects) and aliasing are those of the program.  Methods are state
    transformers that may throw; the external collaborators (the unit of work
    behind [init], the entity factory, the serializer) are a record of
    functions, and every call to one of them is recorded in a trace. *)

From stdpp Require Import base option list gmap strings pretty.
From Stdlib Require Import ZArith.

Local Open Scope string_scope.

(** ** Values *)

Definition loc := nat.

(** JavaScript values.  Numbers are restricted to the integers; objects are
    heap locations. *)
Inductive value :=
| VUndefined
| VNull
| VBool (b : bool)
| VNum (n : Z)
| VStr (s : string)
| VObj (l : loc).

#[global] Instance value_eq_dec : EqDecision value.
Proof. solve_decision. Defined.

(** ToBoolean. *)
Definition truthy (v : value) : bool :=
  match v with
  | VUndefined | VNull => false
  | VBool b => b
  | VNum n => negb (n =? 0)%Z
  | VStr s => negb (bool_decide (s = ""))
  | VObj _ => true
  end.

(** [a === b]. *)
Definition strict_eq (a b : value) : bool := bool_decide (a = b).

(** [v == null]. *)
Definition is_nullish (v : value) : bool :=
  match v with VUndefined | VNull => true | _ => false end.

(** [typeof v === 'object']. *)
Definition typeof_object (v : value) : bool :=
  match v with VNull | VObj _ => true | _ => false end.

(** ** Errors and results *)

Inductive exn :=
| Error (message : string)        (* new Error(message) *)
| TypeError (message : string)    (* raised by the runtime *)
| RangeError (message : string)   (* unbounded getter recursion *)
| Rejection (reason : value)      (* whatever a collaborator throws *)
| OutOfModel (why : string).      (* behaviour this embedding does not cover *)

Inductive result (A : Type) :=
| Ok (a : A)
| Throw (e : exn).
Arguments Ok {A} a.
Arguments Throw {A} e.

Definition rbind {A B} (r : result A) (k : A → result B) : result B :=
  match r with Ok a => k a | Throw e => Throw e end.

(** ** Entity metadata and heap objects *)

Record EntityMetadata := {
  name : string;
  className : string;
  primaryKeys : list string;
  serializedPrimaryKey : option string;
}.

(** The state that the helper ([WrappedEntity]) keeps next to an entity.
    [__reference] is the canonical-reference marker; [None] is the deleted or
    never assigned property. *)
Record WrappedEntity := {
  __meta : EntityMetadata;
  __initialized : bool;
  __reference : option loc;
  __loadedProperties : gset string;
  __originalEntityData : option (gmap string value);
}.

(** The two getters that the constructor of [Reference] installs. *)
Inductive getter :=
| PkGetter (primaryKey : string)   (* return this.entity[primaryKey] *)
| SerializedPkGetter.              (* return helper(this.entity).getSerializedPrimaryKey() *)

Inductive obj :=
| OReference (entity : value) (accessors : gmap string getter)
| OEntity (fields : gmap string value) (w : WrappedEntity)
| OPlain (fields : gmap string value).

(** What the program asks of its collaborators. *)
Inductive event :=
| EvInit (target : loc) (populated populate lockMode connectionType : value)
| EvCreateReference (entityType : string) (pk : value)
    (merge convertCustomTypes : bool) (schema : option string)
| EvPrepareEntity (entity : value)
| EvPopulated (target : loc) (populated : value)
| EvToJSON (target : value) (args : list value).

Record state := {
  heap : gmap loc obj;
  trace : list event;
}.

(** The collaborators, none of which is part of this file's sources.  They act
    on the heap only; the trace is kept by their callers below. *)
Record Collaborators := {
  (* helper(e).init(populated, populate, lockMode, connectionType) *)
  init : loc → value → value → value → value →
         gmap loc obj → result unit * gmap loc obj;
  (* helper(e).getPrimaryKey() *)
  getPrimaryKey : gmap loc obj → loc → value;
  (* helper(e).getSerializedPrimaryKey() *)
  getSerializedPrimaryKey : gmap loc obj → loc → value;
  (* helper(e).populated(flag) *)
  populated_helper : loc → value → gmap loc obj → gmap loc obj;
  (* wrap(e).toJSON(...args) *)
  wrap_toJSON : value → list value →
                gmap loc obj → result value * gmap loc obj;
  (* factory.createReference(entityType, pk, options) *)
  createReference : string → value → bool → bool → option string →
                    gmap loc obj → result value * gmap loc obj;
  (* factory.getComparator().prepareEntity(entity) *)
  prepareEntity : gmap loc obj → value → gmap string value;
  (* string conversion of an object, as a template literal performs it *)
  object_to_string : gmap loc obj → loc → string;
  (* string conversion of a number that is not a safe integer, where the
     runtime prints the shortest digits of the double and, from 1e21 on, an
     exponent *)
  number_to_string : Z → string;
}.

(** ** The monad of methods: state passing with exceptions *)

Definition M (A : Type) : Type := state → result A * state.

Definition ret {A} (a : A) : M A := λ s, (Ok a, s).
Definition throw {A} (e : exn) : M A := λ s, (Throw e, s).
Definition bind {A B} (m : M A) (k : A → M B) : M B :=
  λ s, match m s with
       | (Ok a, s') => k a s'
       | (Throw e, s') => (Throw e, s')
       end.
(** A computation that only reads the heap. *)
Definition read {A} (f : gmap loc obj → result A) : M A := λ s, (f (heap s), s).
Definition log (ev : event) : M unit :=
  λ s, (Ok tt, {| heap := heap s; trace := trace s ++ [ev] |}).
Definition store (l : loc) (o : obj) : M unit :=
  λ s, (Ok tt, {| heap := <[l := o]> (heap s); trace := trace s |}).
Definition alloc (o : obj) : M loc :=
  λ s, let l := fresh (dom (heap s)) in
       (Ok l, {| heap := <[l := o]> (heap s); trace := trace s |}).
(** Running a collaborator that transforms the heap. *)
Definition call {A} (f : gmap loc obj → result A * gmap loc obj) : M A :=
  λ s, let '(r, h) := f (heap s) in (r, {| heap := h; trace := trace s |}).

Declare Scope js_scope.
Delimit Scope js_scope with js.
Notation "'let*' x := m 'in' k" := (bind m (λ x, k))
  (at level 10, x name, m at level 100, k at level 200) : js_scope.
Notation "'let?' x := r 'in' k" := (rbind r (λ x, k))
  (at level 10, x name, r at level 100, k at level 200) : js_scope.
Local Open Scope js_scope.

(** Number of fetches issued so far: the [init] calls in the trace. *)
Definition is_init (ev : event) : bool :=
  match ev with EvInit _ _ _ _ _ => true | _ => false end.
Definition fetches (s : state) : nat := length (filter is_init (trace s)).

Definition is_factory_call (ev : event) : bool :=
  match ev with EvCreateReference _ _ _ _ _ | EvPrepareEntity _ => true | _ => false end.
Definition factory_calls (s : state) : nat := length (filter is_factory_call (trace s)).

(** ** Reading objects *)

(** Members of [Reference] and of its prototype that are functions or
    internal objects; reading one of them as data is not covered. *)
Definition function_members : list string :=
  ["constructor"; "load"; "set"; "unwrap"; "getEntity"; "getProperty";
   "isInitialized"; "populated"; "toJSON"; "get";
   "__meta"; "__platform"; "__helper"].

(** Every name that a [Reference] already owns. *)
Definition reserved : list string :=
  ["entity"; "$"; "__reference"] ++ function_members.

(** The names that every object inherits from [Object.prototype]. *)
Definition object_members : list string :=
  ["constructor"; "hasOwnProperty"; "isPrototypeOf"; "propertyIsEnumerable";
   "toLocaleString"; "toString"; "valueOf"; "__proto__";
   "__defineGetter__"; "__defineSetter__"; "__lookupGetter__"; "__lookupSetter__"].

Section Reference.

Variable W : Collaborators.

(** [helper(v)], that is [v.__helper], given as the location of the entity
    the helper belongs to.  On an entity it is the entity's own helper; on a
    [Reference] the prototype getter forwards to [this.entity.__helper]; any
    other value has no helper, and since every use below dereferences the
    result at once, that case is the [TypeError] of that dereference.  The
    fuel bounds the chain of forwarding getters; a chain longer than the heap
    is cyclic and overflows the stack. *)
Fixpoint helper_at (fuel : nat) (h : gmap loc obj) (v : value) : result loc :=
  match v with
  | VObj l =>
      match h !! l with
      | Some (OEntity _ _) => Ok l
      | Some (OReference e _) =>
          match fuel with
          | O => Throw (RangeError "Maximum call stack size exceeded")
          | S n => helper_at n h e
          end
      | Some (OPlain _) => Throw (TypeError "Cannot read properties of undefined")
      | None => Throw (OutOfModel "dangling location")
      end
  | _ => Throw (TypeError "Cannot read properties of undefined")
  end.

Definition helper (h : gmap loc obj) (v : value) : result loc :=
  helper_at (size h) h v.

(** The helper state of the entity at [l]. *)
Definition wrapped (h : gmap loc obj) (l : loc) : result WrappedEntity :=
  match h !! l with
  | Some (OEntity _ w) => Ok w
  | _ => Throw (OutOfModel "not an entity")
  end.

(** [v[k]] for a data property [k].  An entity and a plain object answer
    with their own field, [undefined] when there is none.  A [Reference]
    answers with its own accessor when it has one under that name, and else
    with the data members of the class.  Of a primitive no property is
    modelled. *)
Fixpoint get_prop_at (fuel : nat) (h : gmap loc obj) (v : value) (k : string)
  : result value :=
  match v with
  | VUndefined | VNull =>
      Throw (TypeError "Cannot read properties of undefined or null")
  | VBool _ | VNum _ | VStr _ => Ok VUndefined
  | VObj l =>
      match h !! l with
      | None => Throw (OutOfModel "dangling location")
      | Some (OEntity fields _) | Some (OPlain fields) =>
          Ok (default VUndefined (fields !! k))
      | Some (OReference e accs) =>
          match accs !! k with
          | Some (PkGetter primaryKey) =>
              match fuel with
              | O => Throw (RangeError "Maximum call stack size exceeded")
              | S n => get_prop_at n h e primaryKey
              end
          | Some SerializedPkGetter =>
              let? l' := helper h e in Ok (getSerializedPrimaryKey W h l')
          | None =>
              if bool_decide (k = "entity" ∨ k = "$") then Ok e
              else if bool_decide (k = "__reference") then Ok (VBool true)
              else if bool_decide (k ∈ function_members)
                   then Throw (OutOfModel "function or internal member")
                   else Ok VUndefined
          end
      end
  end.

Definition get_prop (h : gmap loc obj) (v : value) (k : string) : result value :=
  get_prop_at (size h) h v k.

(** [Number.isSafeInteger(n)]: an integer that a double holds exactly, and
    that the runtime prints as its decimal numeral. *)
Definition safe_integer (n : Z) : bool := (Z.abs n <=? 9007199254740991)%Z.

(** String conversion, as a template literal or a property key performs it. *)
Definition to_string (h : gmap loc obj) (v : value) : string :=
  match v with
  | VUndefined => "undefined"
  | VNull => "null"
  | VBool true => "true"
  | VBool false => "false"
  | VNum n => if safe_integer n then pretty n else number_to_string W n
  | VStr s => s
  | VObj l => object_to_string W h l
  end.

(** ** Static predicates *)

(** [return data && !!data.__reference;] *)
Definition isReference (h : gmap loc obj) (data : value) : result value :=
  if truthy data
  then let? m := get_prop h data "__reference" in Ok (VBool (truthy m))
  else Ok data.

(** [this.entity] of the [Reference] at [this]. *)
Definition this_entity (h : gmap loc obj) (this : loc) : result value :=
  match h !! this with
  | Some (OReference e _) => Ok e
  | _ => Throw (OutOfModel "not a Reference")
  end.

(** [ref.unwrap()] for an arbitrary value [ref]. *)
Definition call_unwrap (h : gmap loc obj) (ref : value) : result value :=
  match ref with
  | VObj l =>
      match h !! l with
      | Some (OReference e _) => Ok e
      | _ => Throw (TypeError "ref.unwrap is not a function")
      end
  | _ => Throw (TypeError "ref.unwrap is not a function")
  end.

(** [return Reference.isReference(ref) ? ref.unwrap() : ref;] *)
Definition unwrapReference (h : gmap loc obj) (ref : value) : result value :=
  let? b := isReference h ref in
  if truthy b then call_unwrap h ref else Ok ref.

(** ** Instance methods *)

(** [this.entity = e] *)
Definition assign_entity (this : loc) (e : value) : M unit :=
  λ s, match heap s !! this with
       | Some (OReference _ accs) => store this (OReference e accs) s
       | _ => (Throw (OutOfModel "not a Reference"), s)
       end.

Definition with_reference (w : WrappedEntity) (r : option loc) : WrappedEntity :=
  {| __meta := __meta w; __initialized := __initialized w; __reference := r;
     __loadedProperties := __loadedProperties w;
     __originalEntityData := __originalEntityData w |}.

(** [helper.__reference = r], and [delete helper.__reference] for [None], on
    the helper of the entity at [l]. *)
Definition assign_reference (l : loc) (r : option loc) : M unit :=
  λ s, match heap s !! l with
       | Some (OEntity fields w) => store l (OEntity fields (with_reference w r)) s
       | _ => (Throw (OutOfModel "not an entity"), s)
       end.

(** [[
    set(entity) {
      this.entity = Reference.unwrapReference(entity);
      delete helper(this.entity).__reference;
    }
    ]] *)
Definition set (this : loc) (entity : value) : M unit :=
  let* unwrapped := read (λ h, unwrapReference h entity) in
  let* _ := assign_entity this unwrapped in
  let* e := read (λ h, this_entity h this) in
  let* l := read (λ h, helper h e) in
  assign_reference l None.

(** [unwrap() { return this.entity; }] *)
Definition unwrap (this : loc) : M value := read (λ h, this_entity h this).

(** [isInitialized() { return helper(this.entity).__initialized; }] *)
Definition isInitialized (this : loc) : M bool :=
  let* e := read (λ h, this_entity h this) in
  let* l := read (λ h, helper h e) in
  let* w := read (λ h, wrapped h l) in
  ret (__initialized w).

(** [Object.defineProperty(this, k, { get })].  The property is created
    non-configurable, so a second definition under the same name is refused
    by the runtime.  A name that [Reference] already owns would replace that
    member, which this embedding keeps apart from the accessors; such
    metadata is not covered (the intersection type [IdentifiedReference]
    has no inhabitant for it either). *)
Definition defineProperty (this : loc) (k : string) (g : getter) : M unit :=
  λ s, match heap s !! this with
       | Some (OReference e accs) =>
           if bool_decide (k ∈ reserved)
           then (Throw (OutOfModel "accessor named like a member of Reference"), s)
           else match accs !! k with
                | Some _ =>
                    (Throw (TypeError ("Cannot redefine property: " ++ k)), s)
                | None => store this (OReference e (<[k := g]> accs)) s
                end
       | _ => (Throw (OutOfModel "not a Reference"), s)
       end.

Fixpoint forEach {A} (xs : list A) (f : A → M unit) : M unit :=
  match xs with
  | [] => ret tt
  | x :: xs' => let* _ := f x in forEach xs' f
  end.

(** The constructor: [new Reference(entity)].  The parameter property
    assigns [this.entity] before the body runs. *)
Definition new_Reference (entity : value) : M loc :=
  let* this := alloc (OReference entity ∅) in
  let* _ := set this entity in
  let* e := read (λ h, this_entity h this) in
  let* l := read (λ h, helper h e) in
  let* w := read (λ h, wrapped h l) in
  let meta := __meta w in
  let* _ := forEach (primaryKeys meta)
              (λ primaryKey, defineProperty this primaryKey (PkGetter primaryKey)) in
  let* _ := match serializedPrimaryKey meta with
            | Some spk =>
                if truthy (VStr spk) && negb (bool_decide (primaryKeys meta !! 0 = Some spk))
                then defineProperty this spk SerializedPkGetter
                else ret tt
            | None => ret tt
            end in
  ret this.

(** Modelled from the spec: [toReference] of the helper is not among the
    sources.  It "returns/creates the canonical Reference for this handle"
    and is "stable (same handle → same Reference instance) until explicitly
    re-pointed": the marker is returned when it is set, and otherwise a new
    [Reference] around the helper's own entity is built and recorded. *)
Definition toReference (l : loc) : M loc :=
  let* w := read (λ h, wrapped h l) in
  match __reference w with
  | Some r => ret r
  | None =>
      let* r := new_Reference (VObj l) in
      let* _ := assign_reference l (Some r) in
      ret r
  end.

(** [[
    static create(entity) {
      const unwrapped = Reference.unwrapReference(entity);
      const ref = helper(entity).toReference();
      if (unwrapped !== ref.unwrap()) { ref.set(unwrapped); }
      return ref;
    }
    ]] *)
Definition create (entity : value) : M value :=
  let* unwrapped := read (λ h, unwrapReference h entity) in
  let* l := read (λ h, helper h entity) in
  let* ref := toReference l in
  let* current := unwrap ref in
  let* _ := if negb (strict_eq unwrapped current) then set ref unwrapped else ret tt in
  ret (VObj ref).

Definition with_loaded (w : WrappedEntity) (keys : list string) : WrappedEntity :=
  {| __meta := __meta w; __initialized := __initialized w;
     __reference := __reference w;
     __loadedProperties := __loadedProperties w ∪ list_to_set keys;
     __originalEntityData := __originalEntityData w |}.

Definition with_original (w : WrappedEntity) (d : gmap string value) : WrappedEntity :=
  {| __meta := __meta w; __initialized := __initialized w;
     __reference := __reference w;
     __loadedProperties := __loadedProperties w;
     __originalEntityData := Some d |}.

Definition update_wrapped (l : loc) (f : WrappedEntity → WrappedEntity) : M unit :=
  λ s, match heap s !! l with
       | Some (OEntity fields w) => store l (OEntity fields (f w)) s
       | _ => (Throw (OutOfModel "not an entity"), s)
       end.

(** [[
    static createNakedFromPK(entityType, pk, options) {
      const factory = entityType.prototype.__factory;
      const entity = factory.createReference(entityType, pk,
        { merge: false, convertCustomTypes: false, ...options });
      const wrapped = helper(entity);
      wrapped.__meta.primaryKeys.forEach(key => wrapped.__loadedProperties.add(key));
      wrapped.__originalEntityData = factory.getComparator().prepareEntity(entity);
      return entity;
    }
    ]]
    [options] carries at most a schema name. *)
Definition createNakedFromPK (entityType : string) (pk : value)
    (schema : option string) : M value :=
  let* _ := log (EvCreateReference entityType pk false false schema) in
  let* entity := call (createReference W entityType pk false false schema) in
  let* l := read (λ h, helper h entity) in
  let* w := read (λ h, wrapped h l) in
  let* _ := update_wrapped l (λ w', with_loaded w' (primaryKeys (__meta w))) in
  let* _ := log (EvPrepareEntity entity) in
  let* data := read (λ h, Ok (prepareEntity W h entity)) in
  let* _ := update_wrapped l (λ w', with_original w' data) in
  ret entity.

(** [[
    static createFromPK(entityType, pk, options) {
      const ref = this.createNakedFromPK(entityType, pk, options);
      return helper(ref).toReference();
    }
    ]] *)
Definition createFromPK (entityType : string) (pk : value)
    (schema : option string) : M value :=
  let* ref := createNakedFromPK entityType pk schema in
  let* l := read (λ h, helper h ref) in
  let* r := toReference l in
  ret (VObj r).

(** [[
    static wrapReference(entity, prop) {
      if (entity && prop.wrappedReference && !Reference.isReference(entity)) {
        return Reference.create(entity);
      }
      return entity;
    }
    ]] *)
Definition wrapReference (entity : value) (wrappedReference : bool) : M value :=
  if truthy entity && wrappedReference
  then let* b := read (λ h, isReference h entity) in
       if negb (truthy b) then create entity else ret entity
  else ret entity.

(** The local [opts] of [load]: the caller's object (or [null]), or the
    literal [{ prop: options }]. *)
Inductive load_opts :=
| OptsGiven (options : value)
| OptsProp (prop : value).

(** [opts?.k] *)
Definition opts_optional (h : gmap loc obj) (opts : load_opts) (k : string)
  : result value :=
  match opts with
  | OptsGiven v => if is_nullish v then Ok VUndefined else get_prop h v k
  | OptsProp p => if bool_decide (k = "prop") then Ok p else Ok VUndefined
  end.

(** [opts.k] *)
Definition opts_get (h : gmap loc obj) (opts : load_opts) (k : string)
  : result value :=
  match opts with
  | OptsGiven v => get_prop h v k
  | OptsProp p => if bool_decide (k = "prop") then Ok p else Ok VUndefined
  end.

(** [[
    async load(options) {
      const opts = typeof options === 'object' ? options : { prop: options };
      if (!this.isInitialized()) {
        await helper(this.entity).init(undefined, opts?.populate,
                                       opts?.lockMode, opts?.connectionType);
      }
      if (opts.prop) { return this.entity[opts.prop]; }
      return this.entity;
    }
    ]]
    One logical task: the awaited delegate runs to completion. *)
Definition load (this : loc) (options : value) : M value :=
  let opts := if typeof_object options then OptsGiven options else OptsProp options in
  let* initialized := isInitialized this in
  let* _ := if negb initialized
            then
              let* e := read (λ h, this_entity h this) in
              let* l := read (λ h, helper h e) in
              let* populate := read (λ h, opts_optional h opts "populate") in
              let* lockMode := read (λ h, opts_optional h opts "lockMode") in
              let* connectionType := read (λ h, opts_optional h opts "connectionType") in
              let* _ := log (EvInit l VUndefined populate lockMode connectionType) in
              call (init W l VUndefined populate lockMode connectionType)
            else ret tt in
  let* prop := read (λ h, opts_get h opts "prop") in
  if truthy prop
  then let* e := read (λ h, this_entity h this) in
       read (λ h, get_prop h e (to_string h prop))
  else read (λ h, this_entity h this).

(** What [load] does after the handle is known to be initialized, or after
    the delegate has returned: hand out the property or the handle. *)
Definition load_result (options : value) (this : loc) : M value :=
  let opts := if typeof_object options then OptsGiven options else OptsProp options in
  let* prop := read (λ h, opts_get h opts "prop") in
  if truthy prop
  then let* e := read (λ h, this_entity h this) in
       read (λ h, get_prop h e (to_string h prop))
  else read (λ h, this_entity h this).

(** The message of the error that [getEntity] raises. *)
Definition not_initialized_message (h : gmap loc obj) (l : loc) (w : WrappedEntity)
  : string :=
  "Reference<" ++ name (__meta w) ++ "> "
    ++ to_string h (getPrimaryKey W h l) ++ " not initialized".

(** [[
    getEntity() {
      if (!this.isInitialized()) {
        throw new Error(`Reference<${helper(this.entity).__meta.name}> ${
          helper(this.entity).getPrimaryKey()} not initialized`);
      }
      return this.entity;
    }
    ]] *)
Definition getEntity (this : loc) : M value :=
  let* initialized := isInitialized this in
  if negb initialized
  then
    let* e := read (λ h, this_entity h this) in
    let* l := read (λ h, helper h e) in
    let* w := read (λ h, wrapped h l) in
    let* message := read (λ h, Ok (not_initialized_message h l w)) in
    throw (Error message)
  else read (λ h, this_entity h this).

(** [getProperty(prop) { return this.getEntity()[prop]; }] *)
Definition getProperty (this : loc) (prop : string) : M value :=
  let* e := getEntity this in
  read (λ h, get_prop h e prop).

(** [populated(populated) { helper(this.entity).populated(populated); }] *)
Definition populated (this : loc) (flag : value) : M unit :=
  let* e := read (λ h, this_entity h this) in
  let* l := read (λ h, helper h e) in
  let* _ := log (EvPopulated l flag) in
  call (λ h, (Ok tt, populated_helper W l flag h)).

(** [toJSON(...args) { return wrap(this.entity).toJSON!(...args); }] *)
Definition toJSON (this : loc) (args : list value) : M value :=
  let* e := read (λ h, this_entity h this) in
  let* _ := log (EvToJSON e args) in
  call (wrap_toJSON W e args).

(** Reading the property [k] of the [Reference] at [this] from outside, as
    [r.id] does: the accessors installed by the constructor. *)
Definition read_accessor (this : loc) (k : string) : M value :=
  read (λ h, get_prop h (VObj this) k).

(** ** The free function [rel] *)

(** Modelled from the spec: [Utils.isEntity] is not among the sources.  A
    persisted entity is an object that carries a helper; a [Reference], a
    plain object and a primitive are not entities. *)
Definition isEntity (h : gmap loc obj) (v : value) : bool :=
  match v with
  | VObj l => match h !! l with Some (OEntity _ _) => true | _ => false end
  | _ => false
  end.

(** [[
    export function rel(entityType, pk) {
      if (pk == null || Utils.isEntity(pk)) { return pk; }
      return Reference.createNakedFromPK(entityType, pk);
    }
    ]] *)
Definition rel (entityType : string) (pk : value) : M value :=
  let* stop := if is_nullish pk then ret true
               else read (λ h, Ok (isEntity h pk)) in
  if (stop : bool) then ret pk
  else createNakedFromPK entityType pk None.

(** ** The free function [ref] *)

(** The first argument of [ref]: a value (an entity, a [Reference], [null],
    [undefined]) or an entity class. *)
Inductive entity_or_type :=
| AValue (v : value)
| AClass (entityType : string).

(** [x.__helper.toReference()] *)
Definition helper_toReference (x : value) : M value :=
  let* l := read (λ h, helper h x) in
  let* r := toReference l in
  ret (VObj r).

(** [[
    export function ref(entityOrType, pk) {
      if (entityOrType == null) { return pk; }
      if (Utils.isEntity(pk)) { return pk.__helper.toReference(); }
      if (Utils.isEntityClass(entityOrType)) {
        if (pk == null) { return pk; }
        return Reference.createFromPK(entityOrType, pk);
      }
      return entityOrType.__helper.toReference();
    }
    ]]
    Modelled from the spec: [Utils.isEntityClass] is not among the sources;
    it tells "a type descriptor" from "an object", here the two
    constructors of the first argument. *)
Definition ref (entityOrType : entity_or_type) (pk : value) : M value :=
  match entityOrType with
  | AValue v =>
      if is_nullish v then ret pk
      else
        let* e := read (λ h, Ok (isEntity h pk)) in
        if (e : bool) then helper_toReference pk
        else helper_toReference v
  | AClass entityType =>
      let* e := read (λ h, Ok (isEntity h pk)) in
      if (e : bool) then helper_toReference pk
      else if is_nullish pk then ret pk
      else createFromPK entityType pk None
  end.

End Reference.

(** [sub] occurs in [s]. *)
Definition contains (sub s : string) : Prop :=
  ∃ before after, s = before ++ sub ++ after.

(** The character [c] occurs in [s]. *)
Fixpoint occurs (c : Ascii.ascii) (s : string) : bool :=
  match s with
  | EmptyString => false
  | String a s' => bool_decide (a = c) || occurs c s'
  end.

(** The serialization of the handle itself, as the specification describes
    what [toJSON] must agree with: the handle's own operation, invoked with
    the same arguments. *)
Definition handle_serialization (W : Collaborators) (handle : value)
    (args : list value) : M value :=
  let* _ := log (EvToJSON handle args) in
  call (wrap_toJSON W handle args).

(** ** Well-formed heaps *)

(** The own [__reference] property of a plain object or of an entity. *)
Definition own_marker (fields : gmap string value) : value :=
  default VUndefined (fields !! "__reference").

(** An allocated object that is not a [Reference]. *)
Definition data_obj (h : gmap loc obj) (l : loc) : bool :=
  match h !! l with
  | Some (OEntity _ _) | Some (OPlain _) => true
  | _ => false
  end.

(** The objects of a well-formed heap: a [Reference] wraps an allocated
    object that is not a [Reference] (or a primitive that a failed [set] left
    there), and none of its accessors hides the marker of the prototype; no
    other object has a truthy [__reference] of its own. *)
Definition ref_ok (h : gmap loc obj) (o : obj) : bool :=
  match o with
  | OReference e accs =>
      bool_decide (accs !! "__reference" = None) &&
      match e with
      | VObj l => data_obj h l
      | _ => true
      end
  | OEntity fields _ | OPlain fields => negb (truthy (own_marker fields))
  end.

Definition wf_refs (h : gmap loc obj) : Prop :=
  map_Forall (λ _ o, ref_ok h o = true) h.

#[global] Instance wf_refs_dec h : Decision (wf_refs h).
Proof. unfold wf_refs. apply _. Defined.

(** A value of the heap: a primitive or an allocated object. *)
Definition closed (h : gmap loc obj) (v : value) : bool :=
  match v with
  | VObj l => bool_decide (is_Some (h !! l))
  | _ => true
  end.

Definition is_Reference (h : gmap loc obj) (v : value) : bool :=
  match v with
  | VObj l => match h !! l with Some (OReference _ _) => true | _ => false end
  | _ => false
  end.

(** The accessors that the constructor installs for given metadata. *)
Definition pk_accessors (accs : gmap string getter) (pks : list string)
  : gmap string getter :=
  foldl (λ a primaryKey, <[primaryKey := PkGetter primaryKey]> a) accs pks.

Definition has_serialized_accessor (meta : EntityMetadata) (spk : string) : bool :=
  truthy (VStr spk) && negb (bool_decide (primaryKeys meta !! 0 = Some spk)).

Definition accessors_of (meta : EntityMetadata) : gmap string getter :=
  let accs := pk_accessors ∅ (primaryKeys meta) in
  match serializedPrimaryKey meta with
  | Some spk =>
      if has_serialized_accessor meta spk
      then <[spk := SerializedPkGetter]> accs else accs
  | None => accs
  end.

(** Metadata for which the constructor goes through: the primary keys are
    distinct, a separate serialized key is none of them, and no key bears
    the name of a member of [Reference]. *)
Definition meta_ok (meta : EntityMetadata) : bool :=
  bool_decide (NoDup (primaryKeys meta)) &&
  bool_decide (Forall (λ k, k ∉ reserved) (primaryKeys meta)) &&
  match serializedPrimaryKey meta with
  | Some spk =>
      if has_serialized_accessor meta spk
      then bool_decide (spk ∉ primaryKeys meta) && bool_decide (spk ∉ reserved)
      else true
  | None => true
  end.

(** A persisted handle: an entity with such metadata, whose marker, when
    set, names a [Reference]. *)
Definition handle_ok (h : gmap loc obj) (l : loc) : bool :=
  match h !! l with
  | Some (OEntity _ w) =>
      meta_ok (__meta w) &&
      match __reference w with
      | Some r => is_Reference h (VObj r)
      | None => true
      end
  | _ => false
  end.

(** The [Reference] at [r] wraps the handle at [l]. *)
Definition wraps (h : gmap loc obj) (r l : loc) : Prop :=
  ∃ accs, h !! r = Some (OReference (VObj l) accs).

(** ** Properties of computations *)

(** A computation keeps a property of the heap, whether it returns or
    throws. *)
Definition preserves (P : gmap loc obj → Prop) {A} (m : M A) : Prop :=
  ∀ s, P (heap s) → P (heap (snd (m s))).

(** A computation only ever adds to the trace. *)
Definition extends_trace {A} (m : M A) : Prop :=
  ∀ s, ∃ rest, trace (snd (m s)) = (trace s ++ rest)%list.

(** A computation calls no collaborator: it leaves the trace as it is. *)
Definition silent {A} (m : M A) : Prop :=
  ∀ s, trace (snd (m s)) = trace s.

(** A computation that only reads: it leaves the whole state as it is. *)
Definition pure_read {A} (m : M A) : Prop :=
  ∀ s, snd (m s) = s.

(** The marker of the handle at [l] is in order: there is none, or it names
    a [Reference] that wraps [l]. *)
Definition canonical (h : gmap loc obj) (l : loc) : Prop :=
  ∃ fields w, h !! l = Some (OEntity fields w) ∧
    ∀ r, __reference w = Some r → wraps h r l.

(** [h'] keeps the class of every object of [h]. *)
Definition kinds_kept (h h' : gmap loc obj) : Prop :=
  ∀ l, (data_obj h l = true → data_obj h' l = true) ∧
       (is_Reference h (VObj l) = true → is_Reference h' (VObj l) = true).

(** ** A concrete world

    An [Author] entity with primary key [id], and collaborators that behave
    as the ones of the ORM do on it.  Used to run the definitions. *)

Definition author_meta : EntityMetadata :=
  {| name := "Author"; className := "Author";
     primaryKeys := ["id"]; serializedPrimaryKey := Some "id" |}.

Definition fresh_helper (meta : EntityMetadata) (initialized : bool) : WrappedEntity :=
  {| __meta := meta; __initialized := initialized; __reference := None;
     __loadedProperties := ∅; __originalEntityData := None |}.

Definition entity_fields (h : gmap loc obj) (l : loc) : gmap string value :=
  match h !! l with
  | Some (OEntity fields _) | Some (OPlain fields) => fields
  | _ => ∅
  end.

Definition first_pk (h : gmap loc obj) (l : loc) : value :=
  match h !! l with
  | Some (OEntity fields w) =>
      match primaryKeys (__meta w) with
      | k :: _ => default VUndefined (fields !! k)
      | [] => VUndefined
      end
  | _ => VUndefined
  end.

(** The fetch of the demo: marks the entity initialized and fills a field. *)
Definition demo_init (l : loc) (_ _ _ _ : value) (h : gmap loc obj)
  : result unit * gmap loc obj :=
  match h !! l with
  | Some (OEntity fields w) =>
      (Ok tt,
       <[l := OEntity (<["name" := VStr "Ann"]> fields)
                {| __meta := __meta w; __initialized := true;
                   __reference := __reference w;
                   __loadedProperties := __loadedProperties w ∪ {["name"]};
                   __originalEntityData := __originalEntityData w |}]> h)
  | _ => (Throw (Rejection (VStr "not managed")), h)
  end.

Definition demo_world : Collaborators :=
  {| init := demo_init;
     getPrimaryKey := first_pk;
     getSerializedPrimaryKey := first_pk;
     populated_helper := λ _ _ h, h;
     wrap_toJSON := λ e _ h,
       match e with
       | VObj l => let j := fresh (dom h) in
                   (Ok (VObj j), <[j := OPlain (entity_fields h l)]> h)
       | _ => (Throw (TypeError "toJSON is not a function"), h)
       end;
     createReference := λ entityType pk _ _ _ h,
       let l := fresh (dom h) in
       (Ok (VObj l),
        <[l := OEntity {["id" := pk]}
                 (fresh_helper {| name := entityType; className := entityType;
                                  primaryKeys := ["id"];
                                  serializedPrimaryKey := Some "id" |} false)]> h);
     prepareEntity := λ h e, match e with VObj l => entity_fields h l | _ => ∅ end;
     object_to_string := λ _ _, "[object Object]";
     (* the demo holds safe integers only *)
     number_to_string := λ n, pretty n |}.

(** Location 0: an uninitialized author 7; location 1: an initialized
    author 8; location 2: a plain options object. *)
Definition demo_heap : gmap loc obj :=
  <[0 := OEntity {["id" := VNum 7]} (fresh_helper author_meta false)]>
  (<[1 := OEntity (<["name" := VStr "Bob"]> {["id" := VNum 8]})
            (fresh_helper author_meta true)]>
  (<[2 := OPlain {["populate" := VBool true]}]> ∅)).

Definition demo_state : state := {| heap := demo_heap; trace := [] |}.

(** The heap of the demo after [Reference.create] on the author at 0: the
    canonical [Reference] is at location 3. *)
Definition demo_created : state := snd (create demo_world (VObj 0) demo_state).

(** The demo after the canonical [Reference] of author 7 (at 3) has been
    pointed at author 8 (at 1). *)
Definition demo_repointed : state := snd (set demo_world 3 (VObj 1) demo_created).

(** An object that is no [Reference] and yet has a truthy property
    [__reference] of its own. *)
Definition marked_heap : gmap loc obj :=
  <[0 := OPlain {["__reference" := VBool true]}]> ∅.

(** An entity that has a property under the empty name, initialized, and a
    [Reference] to it. *)
Definition odd_meta : EntityMetadata :=
  {| name := "Odd"; className := "Odd";
     primaryKeys := ["id"]; serializedPrimaryKey := None |}.

Definition odd_state : state :=
  {| heap := <[0 := OEntity (<["" := VStr "nameless"]> {["id" := VNum 1]})
                      (fresh_helper odd_meta true)]>
             (<[1 := OReference (VObj 0) {["id" := PkGetter "id"]}]> ∅);
     trace := [] |}.

(** An entity with a composite primary key whose second part is also the
    serialized key. *)
Definition composite_meta : EntityMetadata :=
  {| name := "Order"; className := "Order";
     primaryKeys := ["shop"; "number"]; serializedPrimaryKey := Some "number" |}.

Definition composite_state : state :=
  {| heap := <[0 := OEntity (<["number" := VNum 1]> {["shop" := VNum 2]})
                      (fresh_helper composite_meta true)]> ∅;
     trace := [] |}.

(** A world for an entity with a composite primary key: the helper hands
    out the key as an object of its parts, kept at location 1 here, and
    serializes it by joining the parts. *)
Definition order_meta : EntityMetadata :=
  {| name := "Order"; className := "Order";
     primaryKeys := ["shop"; "number"]; serializedPrimaryKey := Some "shop" |}.

Definition order_world : Collaborators :=
  {| init := demo_init;
     getPrimaryKey := λ _ _, VObj 1;
     getSerializedPrimaryKey := λ _ _, VStr "2~~~1";
     populated_helper := populated_helper demo_world;
     wrap_toJSON := wrap_toJSON demo_world;
     createReference := createReference demo_world;
     prepareEntity := prepareEntity demo_world;
     object_to_string := λ _ _, "[object Object]";
     number_to_string := number_to_string demo_world |}.

(** Location 0: an order that is not initialized; location 1: its key;
    location 2: a [Reference] to the order. *)
Definition order_state : state :=
  {| heap := <[0 := OEntity (<["number" := VNum 1]> {["shop" := VNum 2]})
                      (fresh_helper order_meta false)]>
             (<[1 := OPlain (<["number" := VNum 1]> {["shop" := VNum 2]})]>
             (<[2 := OReference (VObj 0)
                       (<["number" := PkGetter "number"]>
                          {["shop" := PkGetter "shop"]})]> ∅));
     trace := [] |}.

(** The state of the demo after [load()] on the [Reference] at 3. *)
Definition demo_loaded : state := snd (load demo_world 3 VUndefined demo_created).

(** Equality of heaps built from the same insertions. *)
Ltac same_heap :=
  apply map_eq; intros ?; rewrite ?lookup_insert;
  repeat case_decide; congruence.

(** * The command-line configurator

    [CLIConfigurator.configure] of the second source file.  Its state is the
    environment of the process; the loaders it awaits are collaborators, and
    each call of one is recorded. *)

(** The settings that [ConfigurationLoader.getSettings] resolves to, as far
    as [configure] looks at them. *)
Record Settings := {
  useTsNode : value;
  tsConfigPath : value;
}.

Inductive cli_event :=
| EvCheckPackageVersion
| EvGetSettings
| EvGetORMVersion
| EvRegisterTsNode (configPath : value).

(** [process.env], and the loaders called so far. *)
Record cli_state := {
  env : gmap string string;
  calls : list cli_event;
}.

(** [ConfigurationLoader] and [Utils.getORMVersion]: each may read and write
    the environment, and may fail. *)
Record Loader := {
  checkPackageVersion : gmap string string → result unit * gmap string string;
  getSettings : gmap string string → result Settings * gmap string string;
  getORMVersion : gmap string string → result string * gmap string string;
  registerTsNode : value → gmap string string → result value * gmap string string;
}.

(** The commands, as [configure] constructs them. *)
Inductive command :=
| ClearCacheCommand
| GenerateCacheCommand
| GenerateEntitiesCommand
| CreateDatabaseCommand
| ImportCommand
| DatabaseSeedCommand
| CreateSeederCommand
| SchemaCommand (method : string)
| MigrationCommand (method : string)
| DebugCommand.

(** What the chain of [yargs] calls has configured. *)
Record Argv := {
  scriptName : string;
  version : string;
  usage : string;
  example : string * string;
  alias : list (string * string);
  commands : list command;
  recommendCommands : bool;
  strictMode : bool;
}.

Definition CM (A : Type) : Type := cli_state → result A * cli_state.

Definition cbind {A B} (m : CM A) (k : A → CM B) : CM B :=
  λ c, match m c with
       | (Ok a, c') => k a c'
       | (Throw e, c') => (Throw e, c')
       end.

(** An awaited call of a loader. *)
Definition cli_call {A} (ev : cli_event)
    (f : gmap string string → result A * gmap string string) : CM A :=
  λ c, let '(r, e) := f (env c) in (r, {| env := e; calls := calls c ++ [ev] |}).

(** [process.env[k] ??= v]: a variable of the environment is a string when
    it is set, so the assignment happens exactly when it is not set. *)
Definition env_nullish_assign (k v : string) : CM unit :=
  λ c, match env c !! k with
       | Some _ => (Ok tt, c)
       | None => (Ok tt, {| env := <[k := v]> (env c); calls := calls c |})
       end.

Definition yargs_program (version : string) : Argv :=
  {| scriptName := "mikro-orm";
     version := version;
     usage := "Usage: $0 <command> [options]";
     example := ("$0 schema:update --run", "Runs schema synchronization");
     alias := [("v", "version"); ("h", "help")];
     commands :=
       [ClearCacheCommand; GenerateCacheCommand; GenerateEntitiesCommand;
        CreateDatabaseCommand; ImportCommand; DatabaseSeedCommand;
        CreateSeederCommand;
        SchemaCommand "create"; SchemaCommand "drop"; SchemaCommand "update";
        SchemaCommand "fresh";
        MigrationCommand "create"; MigrationCommand "up"; MigrationCommand "down";
        MigrationCommand "list"; MigrationCommand "pending"; MigrationCommand "fresh";
        DebugCommand];
     recommendCommands := true;
     strictMode := true |}.

(** [[
    static async configure() {
      await ConfigurationLoader.checkPackageVersion();
      const settings = await ConfigurationLoader.getSettings();
      const version = Utils.getORMVersion();
      if (settings.useTsNode) {
        const tsNode = await ConfigurationLoader.registerTsNode(settings.tsConfigPath);
        if (!tsNode) { process.env.MIKRO_ORM_CLI_USE_TS_NODE ??= '0'; }
      }
      return yargs.scriptName('mikro-orm').version(version). ... .strict();
    }
    ]] *)
Definition configure (L : Loader) : CM Argv :=
  cbind (cli_call EvCheckPackageVersion (checkPackageVersion L)) (λ _,
  cbind (cli_call EvGetSettings (getSettings L)) (λ settings,
  cbind (cli_call EvGetORMVersion (getORMVersion L)) (λ version,
  cbind (if truthy (useTsNode settings)
         then cbind (cli_call (EvRegisterTsNode (tsConfigPath settings))
                       (registerTsNode L (tsConfigPath settings))) (λ tsNode,
              if negb (truthy tsNode)
              then env_nullish_assign "MIKRO_ORM_CLI_USE_TS_NODE" "0"
              else λ c, (Ok tt, c))
         else λ c, (Ok tt, c)) (λ _ c,
  (Ok (yargs_program version), c))))).

(** A loader that leaves the environment as it finds it. *)
Definition keeps_env {A} (f : gmap string string → result A * gmap string string)
  : Prop :=
  ∀ e, snd (f e) = e.

Definition loaders_keep_env (L : Loader) : Prop :=
  keeps_env (checkPackageVersion L) ∧ keeps_env (getSettings L) ∧
  keeps_env (getORMVersion L) ∧ ∀ p, keeps_env (registerTsNode L p).

(** Loaders for a project that asks for [ts-node] where it cannot be
    registered. *)
Definition demo_loader : Loader :=
  {| checkPackageVersion := λ e, (Ok tt, e);
     getSettings := λ e, (Ok {| useTsNode := VBool true;
                                tsConfigPath := VStr "./tsconfig.json" |}, e);
     getORMVersion := λ e, (Ok "5.7.0", e);
     registerTsNode := λ _ e, (Ok (VBool false), e) |}.

(** Loaders whose version check fails. *)
Definition failing_loader : Loader :=
  {| checkPackageVersion := λ e, (Throw (Error "Bad @mikro-orm/core version"), e);
     getSettings := getSettings demo_loader;
     getORMVersion := getORMVersion demo_loader;
     registerTsNode := registerTsNode demo_loader |}.

Definition demo_cli : cli_state := {| env := ∅; calls := [] |}.

(** An environment in which the variable is set, to the empty string. *)
Definition preset_cli : cli_state :=
  {| env := {["MIKRO_ORM_CLI_USE_TS_NODE" := ""]}; calls := [] |}.

(** * Lemmas *)

(** ** Basic facts about reading the heap *)

Section Facts.

Variable W : Collaborators.

Lemma string_app_assoc (a b c : string) : (a ++ b) ++ c = a ++ b ++ c.
Proof.
  induction a as [|x a IH]; [done|].
  change (String x ((a ++ b) ++ c) = String x (a ++ b ++ c)). by rewrite IH.
Qed.

Lemma occurs_app c (a b : string) : occurs c (a ++ b) = occurs c a || occurs c b.
Proof.
  induction a as [|x a IH]; [done|].
  change (String x a ++ b) with (String x (a ++ b)). simpl.
  by rewrite IH, orb_assoc.
Qed.

Lemma contains_occurs c sub s :
  occurs c sub = true → contains sub s → occurs c s = true.
Proof.
  intros Hc (before & after & ->). rewrite !occurs_app, Hc.
  by rewrite orb_true_r.
Qed.

Lemma size_lookup_pos (h : gmap loc obj) l o :
  h !! l = Some o → ∃ n, size h = S n.
Proof.
  intros Hl. destruct (size h) eqn:Hs; [|eauto].
  apply map_size_empty_iff in Hs. subst h. by rewrite lookup_empty in Hl.
Qed.

Lemma helper_at_entity n (h : gmap loc obj) l fields w :
  h !! l = Some (OEntity fields w) → helper_at n h (VObj l) = Ok l.
Proof. intros Hl. destruct n; simpl; by rewrite Hl. Qed.

Lemma helper_entity (h : gmap loc obj) l fields w :
  h !! l = Some (OEntity fields w) → helper h (VObj l) = Ok l.
Proof. apply helper_at_entity. Qed.

Lemma helper_reference (h : gmap loc obj) r l accs fields w :
  h !! r = Some (OReference (VObj l) accs) →
  h !! l = Some (OEntity fields w) →
  helper h (VObj r) = Ok l.
Proof.
  intros Hr Hl. unfold helper.
  destruct (size_lookup_pos h r _ Hr) as [n ->]. simpl. rewrite Hr.
  by eapply helper_at_entity.
Qed.

(** A helper is found only on an entity or through a [Reference]. *)
Lemma helper_at_Ok_inv n (h : gmap loc obj) v l :
  helper_at n h v = Ok l →
  is_Reference h v = true ∨ (v = VObj l ∧ isEntity h v = true).
Proof.
  destruct n; destruct v as [| | | | |l0]; simpl; try discriminate;
    destruct (h !! l0) as [[]|]; try discriminate; intros; simplify_eq; auto.
Qed.

Lemma get_prop_at_fields n (h : gmap loc obj) l fields k :
  (∃ w, h !! l = Some (OEntity fields w)) ∨ h !! l = Some (OPlain fields) →
  get_prop_at W n h (VObj l) k = Ok (default VUndefined (fields !! k)).
Proof. intros [[w Hl]|Hl]; destruct n; simpl; by rewrite Hl. Qed.

Lemma get_prop_entity (h : gmap loc obj) l fields w k :
  h !! l = Some (OEntity fields w) →
  get_prop W h (VObj l) k = Ok (default VUndefined (fields !! k)).
Proof. intros. apply get_prop_at_fields. eauto. Qed.

Lemma isReference_falsy (h : gmap loc obj) v :
  truthy v = false → isReference W h v = Ok v.
Proof. unfold isReference. by intros ->. Qed.

Lemma isReference_primitive (h : gmap loc obj) v :
  truthy v = true → (∀ l, v ≠ VObj l) → isReference W h v = Ok (VBool false).
Proof.
  unfold isReference, get_prop. intros Ht Hv. rewrite Ht.
  destruct v as [| | | | |l0]; try done; try (by destruct (size h)).
  by destruct (Hv l0).
Qed.

Lemma isReference_Reference (h : gmap loc obj) r e accs :
  h !! r = Some (OReference e accs) → accs !! "__reference" = None →
  isReference W h (VObj r) = Ok (VBool true).
Proof.
  intros Hr Ha. unfold isReference, get_prop. simpl.
  destruct (size h); simpl; by rewrite Hr, Ha.
Qed.

Lemma isReference_fields (h : gmap loc obj) l fields :
  (∃ w, h !! l = Some (OEntity fields w)) ∨ h !! l = Some (OPlain fields) →
  isReference W h (VObj l) = Ok (VBool (truthy (own_marker fields))).
Proof.
  intros Hl. unfold isReference, get_prop. simpl.
  by rewrite (get_prop_at_fields _ _ _ fields).
Qed.

(** On a well-formed heap the marker is read without error, and only a
    [Reference] carries it. *)
Lemma isReference_wf (h : gmap loc obj) v :
  wf_refs h → closed h v = true →
  isReference W h v =
    Ok (if is_Reference h v then VBool true
        else if truthy v then VBool false else v).
Proof.
  intros Hwf Hv. destruct (is_Reference h v) eqn:Hr.
  - destruct v as [| | | | |r]; try discriminate. simpl in Hr.
    destruct (h !! r) as [[e accs| |]|] eqn:Er; try discriminate.
    pose proof (Hwf _ _ Er) as Hok. simpl in Hok.
    apply andb_true_iff in Hok as [Ha _]. apply bool_decide_eq_true in Ha.
    by rewrite (isReference_Reference _ _ _ _ Er Ha).
  - destruct (truthy v) eqn:Ht; [|by apply isReference_falsy].
    destruct v as [| |b|n|s|l]; try (by apply isReference_primitive).
    simpl in Hv, Hr. apply bool_decide_eq_true in Hv as [o Ho]. rewrite Ho in Hr.
    pose proof (Hwf _ _ Ho) as Hok.
    destruct o as [e accs|fields w|fields]; try discriminate; simpl in Hok;
      apply negb_true_iff in Hok;
      rewrite (isReference_fields _ _ fields) by eauto; by rewrite Hok.
Qed.

(** The entity of a [Reference] of a well-formed heap is an allocated object
    or a primitive, and not a [Reference]. *)
Lemma wf_refs_entity (h : gmap loc obj) r e accs :
  wf_refs h → h !! r = Some (OReference e accs) →
  is_Reference h e = false ∧ closed h e = true.
Proof.
  intros Hwf Hr. pose proof (Hwf _ _ Hr) as Hok. simpl in Hok.
  apply andb_true_iff in Hok as [_ He].
  destruct e as [| | | | |l]; simpl; try done. unfold data_obj in He.
  destruct (h !! l) as [[]|]; try done; split; try done;
    apply bool_decide_eq_true; eauto.
Qed.

(** On a well-formed heap [unwrapReference] never throws, strips the wrapper
    of a [Reference] and leaves every other value alone, and its result is
    not a [Reference]. *)
Lemma unwrapReference_wf (h : gmap loc obj) x :
  wf_refs h → closed h x = true →
  ∃ u, unwrapReference W h x = Ok u ∧ is_Reference h u = false ∧
       closed h u = true ∧
       (∀ r e accs, x = VObj r → h !! r = Some (OReference e accs) → u = e) ∧
       (is_Reference h x = false → u = x).
Proof.
  intros Hwf Hx. unfold unwrapReference.
  rewrite isReference_wf by done. simpl.
  destruct (is_Reference h x) eqn:Hr; simpl.
  - destruct x as [| | | | |r]; try discriminate. simpl in Hr. simpl.
    destruct (h !! r) as [[e accs| |]|] eqn:Er; try discriminate.
    destruct (wf_refs_entity _ _ _ _ Hwf Er) as [? ?].
    exists e. split_and!; try done. intros ??? [= <-] ?. by simplify_eq.
  - exists x. replace (truthy (if truthy x then VBool false else x)) with false
      by (by destruct (truthy x) eqn:E).
    split_and!; try done.
    intros r e accs -> Hl. simpl in Hr. by rewrite Hl in Hr.
Qed.

Lemma unwrapReference_Ok_closed (h : gmap loc obj) x u :
  unwrapReference W h x = Ok u → closed h x = true.
Proof.
  destruct x as [| | | | |l]; try done. simpl.
  unfold unwrapReference, isReference, get_prop. simpl.
  destruct (h !! l) eqn:El; [intros _; apply bool_decide_eq_true; eauto|].
  destruct (size h); simpl; by rewrite El.
Qed.

(** ** Running methods *)

Lemma bind_Ok_inv {A B} (m : M A) (k : A → M B) s b s' :
  bind m k s = (Ok b, s') →
  ∃ a s1, m s = (Ok a, s1) ∧ k a s1 = (Ok b, s').
Proof.
  unfold bind. destruct (m s) as [[a|e] s1]; [eauto|discriminate].
Qed.

Lemma bind_Ok {A B} (m : M A) (k : A → M B) s a s1 :
  m s = (Ok a, s1) → bind m k s = k a s1.
Proof. unfold bind. by intros ->. Qed.

Lemma bind_Throw {A B} (m : M A) (k : A → M B) s e s1 :
  m s = (Throw e, s1) → bind m k s = (Throw e, s1).
Proof. unfold bind. by intros ->. Qed.

Lemma read_Ok_inv {A} (f : gmap loc obj → result A) s a s' :
  read f s = (Ok a, s') → f (heap s) = Ok a ∧ s' = s.
Proof. unfold read. by intros [= -> ->]. Qed.

Lemma read_Ok {A} (f : gmap loc obj → result A) s a :
  f (heap s) = Ok a → read f s = (Ok a, s).
Proof. unfold read. by intros ->. Qed.

Lemma assign_entity_inv this e s r s' :
  assign_entity this e s = (r, s') →
  (∃ e0 accs, heap s !! this = Some (OReference e0 accs) ∧ r = Ok tt ∧
     s' = {| heap := <[this := OReference e accs]> (heap s); trace := trace s |})
  ∨ ((∀ e0 accs, heap s !! this ≠ Some (OReference e0 accs)) ∧ s' = s ∧
     ∃ x, r = Throw x).
Proof.
  unfold assign_entity, store.
  destruct (heap s !! this) as [[e0 accs| |]|]; intros [= <- <-];
    [left; eauto | right; eauto ..].
Qed.

Lemma update_entity_inv l (f : WrappedEntity → WrappedEntity) s r s' :
  update_wrapped l f s = (r, s') →
  (∃ fields w, heap s !! l = Some (OEntity fields w) ∧ r = Ok tt ∧
     s' = {| heap := <[l := OEntity fields (f w)]> (heap s); trace := trace s |})
  ∨ (isEntity (heap s) (VObj l) = false ∧ s' = s ∧ ∃ x, r = Throw x).
Proof.
  unfold update_wrapped, store. simpl.
  destruct (heap s !! l) as [[| |]|]; intros [= <- <-];
    [right; eauto | left; eauto | right; eauto ..].
Qed.

Lemma assign_reference_inv l m s r s' :
  assign_reference l m s = (r, s') →
  (∃ fields w, heap s !! l = Some (OEntity fields w) ∧ r = Ok tt ∧
     s' = {| heap := <[l := OEntity fields (with_reference w m)]> (heap s);
             trace := trace s |})
  ∨ (isEntity (heap s) (VObj l) = false ∧ s' = s ∧ ∃ x, r = Throw x).
Proof. apply (update_entity_inv l (λ w, with_reference w m)). Qed.

Lemma isInitialized_wraps s this l accs fields w :
  heap s !! this = Some (OReference (VObj l) accs) →
  heap s !! l = Some (OEntity fields w) →
  isInitialized this s = (Ok (__initialized w), s).
Proof.
  intros Hthis Hl. unfold isInitialized, bind, read, this_entity, wrapped, ret.
  by rewrite Hthis, (helper_entity _ _ _ _ Hl), Hl.
Qed.

Lemma isInitialized_state this s : snd (isInitialized this s) = s.
Proof.
  unfold isInitialized, bind, read, ret.
  destruct (this_entity _ _); [|done]. destruct (helper _ _); [|done].
  by destruct (wrapped _ _).
Qed.

Lemma fetches_snoc s s1 ev :
  trace s1 = (trace s ++ [ev])%list → is_init ev = true →
  fetches s1 = S (fetches s).
Proof.
  unfold fetches. intros -> Hev. rewrite filter_app, length_app. simpl.
  rewrite filter_cons_True by by rewrite Hev. simpl. lia.
Qed.

Lemma load_result_state options this s : snd (load_result W options this s) = s.
Proof.
  unfold load_result, bind, read.
  destruct (opts_get _ _ _ _) as [prop|]; [|done].
  destruct (truthy prop); [|done]. by destruct (this_entity _ _).
Qed.

Lemma load_initialized s this options :
  isInitialized this s = (Ok true, s) →
  load W this options s = load_result W options this s.
Proof. intros Hi. unfold load. by rewrite (bind_Ok _ _ _ _ _ Hi). Qed.

(** A [load] on a handle that is not initialized returns only after exactly
    one call of the delegate. *)
Lemma load_uninitialized_inv s this options v s1 :
  isInitialized this s = (Ok false, s) →
  load W this options s = (Ok v, s1) →
  ∃ l populate lockMode connectionType h1,
    init W l VUndefined populate lockMode connectionType (heap s) = (Ok tt, h1) ∧
    s1 = {| heap := h1;
            trace := trace s ++ [EvInit l VUndefined populate lockMode connectionType] |} ∧
    load_result W options this s1 = (Ok v, s1).
Proof.
  intros Hi H. unfold load in H. rewrite (bind_Ok _ _ _ _ _ Hi) in H. simpl in H.
  apply bind_Ok_inv in H as ([] & s2 & Hfetch & H).
  apply bind_Ok_inv in Hfetch as (e & ? & [He ->]%read_Ok_inv & Hfetch).
  apply bind_Ok_inv in Hfetch as (l & ? & [Hl ->]%read_Ok_inv & Hfetch).
  apply bind_Ok_inv in Hfetch as (populate & ? & [Hp ->]%read_Ok_inv & Hfetch).
  apply bind_Ok_inv in Hfetch as (lockMode & ? & [Hm ->]%read_Ok_inv & Hfetch).
  apply bind_Ok_inv in Hfetch as (connectionType & ? & [Hc ->]%read_Ok_inv & Hfetch).
  apply bind_Ok_inv in Hfetch as ([] & ? & Hlog & Hfetch).
  unfold log in Hlog. injection Hlog as <-.
  unfold call in Hfetch. simpl in Hfetch.
  destruct (init W l VUndefined populate lockMode connectionType (heap s))
    as [r h1] eqn:Hinit.
  injection Hfetch as -> <-.
  pose proof (load_result_state options this
                {| heap := h1;
                   trace := trace s ++ [EvInit l VUndefined populate lockMode connectionType] |})
    as Hst.
  unfold load_result in Hst. rewrite H in Hst. simpl in Hst. subst s1.
  by exists l, populate, lockMode, connectionType, h1.
Qed.

Lemma extends_trace_bind {A B} (m : M A) (k : A → M B) :
  extends_trace m → (∀ a, extends_trace (k a)) → extends_trace (bind m k).
Proof.
  intros Hm Hk s. unfold bind. destruct (Hm s) as [r1 H1].
  destruct (m s) as [[a|e] s1]; simpl in *; [|eauto].
  destruct (Hk a s1) as [r2 H2]. exists (r1 ++ r2)%list.
  by rewrite H2, H1, app_assoc.
Qed.

Lemma extends_trace_same {A} (m : M A) :
  (∀ s, trace (snd (m s)) = trace s) → extends_trace m.
Proof. intros H s. exists []. by rewrite H, app_nil_r. Qed.

Lemma extends_trace_update l f : extends_trace (update_wrapped l f).
Proof.
  apply extends_trace_same. intros s. unfold update_wrapped, store.
  by destruct (heap s !! l) as [[]|].
Qed.

Lemma extends_trace_log ev : extends_trace (log ev).
Proof. intros s. by exists [ev]. Qed.

Lemma extends_trace_call {A} (f : gmap loc obj → result A * gmap loc obj) :
  extends_trace (call f).
Proof.
  apply extends_trace_same. intros s. unfold call. by destruct (f (heap s)).
Qed.

Lemma extends_trace_createNakedFromPK entityType pk schema s :
  ∃ rest, trace (snd (createNakedFromPK W entityType pk schema s))
          = (trace s ++ EvCreateReference entityType pk false false schema :: rest)%list.
Proof.
  unfold createNakedFromPK.
  match goal with
  | |- context [bind (log ?ev) ?k] =>
      assert (extends_trace (k tt)) as Hk
  end.
  { repeat first [ apply extends_trace_bind; [|intros ?]
                 | apply extends_trace_call | apply extends_trace_log
                 | apply extends_trace_update
                 | by apply extends_trace_same ]. }
  set (s0 := {| heap := heap s;
                trace := trace s ++ [EvCreateReference entityType pk false false schema] |}).
  destruct (Hk s0) as [rest Hrest]. exists rest.
  rewrite (bind_Ok _ _ s tt s0) by done.
  etransitivity; [exact Hrest|]. simpl. by rewrite <- app_assoc.
Qed.

(** ** Preservation of well-formedness *)

Lemma ref_ok_kinds_kept h h' o :
  kinds_kept h h' → ref_ok h o = true → ref_ok h' o = true.
Proof.
  intros Hk. destruct o as [e accs| |]; simpl; try done.
  intros [Ha He]%andb_true_iff. apply andb_true_iff. split; [done|].
  destruct e; try done. by apply Hk.
Qed.

Lemma kinds_kept_insert (h : gmap loc obj) l o o' :
  h !! l = Some o →
  match o, o' with
  | OReference _ _, OReference _ _ => True
  | OEntity _ _, OEntity _ _ => True
  | OPlain _, OPlain _ => True
  | _, _ => False
  end →
  kinds_kept h (<[l := o']> h).
Proof.
  intros Hl Hsame l'. unfold data_obj. simpl.
  destruct (decide (l = l')) as [<-|Hne].
  - rewrite lookup_insert_eq, Hl. by destruct o, o'.
  - by rewrite lookup_insert_ne.
Qed.

Lemma kinds_kept_alloc (h : gmap loc obj) l o :
  h !! l = None → kinds_kept h (<[l := o]> h).
Proof.
  intros Hl l'. unfold data_obj. simpl.
  destruct (decide (l = l')) as [<-|Hne].
  - by rewrite Hl.
  - by rewrite lookup_insert_ne.
Qed.

Lemma wf_refs_insert (h : gmap loc obj) l o :
  wf_refs h → kinds_kept h (<[l := o]> h) → ref_ok (<[l := o]> h) o = true →
  wf_refs (<[l := o]> h).
Proof.
  intros Hwf Hk Ho l' o'. destruct (decide (l = l')) as [<-|Hne].
  - rewrite lookup_insert_eq. by intros [= <-].
  - rewrite lookup_insert_ne by done. intros Hl'.
    eapply ref_ok_kinds_kept; [done|]. by eapply Hwf.
Qed.

(** What a [set] that returns has done. *)
Lemma set_Ok_inv this v s s' :
  set W this v s = (Ok tt, s') →
  ∃ u e0 accs l fields w,
    unwrapReference W (heap s) v = Ok u ∧
    heap s !! this = Some (OReference e0 accs) ∧
    helper (<[this := OReference u accs]> (heap s)) u = Ok l ∧
    <[this := OReference u accs]> (heap s) !! l = Some (OEntity fields w) ∧
    s' = {| heap := <[l := OEntity fields (with_reference w None)]>
                      (<[this := OReference u accs]> (heap s));
            trace := trace s |}.
Proof.
  unfold set. intros H.
  apply bind_Ok_inv in H as (u & s1 & Hu & H). apply read_Ok_inv in Hu as [Hu ->].
  apply bind_Ok_inv in H as ([] & s1 & Ha & H).
  apply assign_entity_inv in Ha as [(e0 & accs & He0 & _ & ->)|(_ & _ & ? & ?)];
    [|done].
  apply bind_Ok_inv in H as (e & s1 & He & H). apply read_Ok_inv in He as [He ->].
  simpl in He. unfold this_entity in He. rewrite lookup_insert_eq in He.
  simplify_eq.
  apply bind_Ok_inv in H as (l & s1 & Hl & H). apply read_Ok_inv in Hl as [Hl ->].
  simpl in Hl.
  apply assign_reference_inv in H as [(fields & w & Hw & _ & ->)|(_ & _ & ? & ?)];
    [|done].
  simpl in *. exists e, e0, accs, l, fields, w. done.
Qed.

(** What a [set] that returns has done on a well-formed heap: the argument,
    unwrapped, is an entity; it is the new [entity] of the [Reference], and
    the marker of its helper is gone. *)
Lemma set_Ok_wf this v s s' :
  wf_refs (heap s) → set W this v s = (Ok tt, s') →
  ∃ e0 accs l fields w,
    unwrapReference W (heap s) v = Ok (VObj l) ∧ l ≠ this ∧
    heap s !! this = Some (OReference e0 accs) ∧
    heap s !! l = Some (OEntity fields w) ∧
    s' = {| heap := <[l := OEntity fields (with_reference w None)]>
                      (<[this := OReference (VObj l) accs]> (heap s));
            trace := trace s |}.
Proof.
  intros Hwf H.
  apply set_Ok_inv in H as (u & e0 & accs & l & fields & w & Hu & Hthis & Hl & Hw & ->).
  pose proof (unwrapReference_Ok_closed _ _ _ Hu) as Hc.
  destruct (unwrapReference_wf _ v Hwf Hc) as (u' & Hu' & Hnr & _).
  rewrite Hu in Hu'. injection Hu' as <-.
  apply helper_at_Ok_inv in Hl as [Hr|[-> He]].
  - exfalso. destruct u as [| | | | |x]; try done. simpl in Hr, Hnr.
    destruct (decide (this = x)) as [<-|Hne].
    + by rewrite Hthis in Hnr.
    + rewrite lookup_insert_ne in Hr by done. by rewrite Hr in Hnr.
  - assert (l ≠ this) as Hne.
    { intros ->. by rewrite lookup_insert_eq in Hw. }
    rewrite lookup_insert_ne in Hw by done.
    exists e0, accs, l, fields, w. done.
Qed.

Lemma preserves_apply P {A} (m : M A) s :
  preserves P m → P (heap s) → P (heap (snd (m s))).
Proof. intros Hm. apply Hm. Qed.

Lemma preserves_bind P {A B} (m : M A) (k : A → M B) :
  preserves P m → (∀ a, preserves P (k a)) → preserves P (bind m k).
Proof.
  intros Hm Hk s Hs. unfold bind. specialize (Hm s Hs).
  destruct (m s) as [[a|e] s1]; simpl in *; [by apply Hk|done].
Qed.

Lemma preserves_read P {A} (f : gmap loc obj → result A) : preserves P (read f).
Proof. by intros s Hs. Qed.

Lemma preserves_ret P {A} (a : A) : preserves P (ret a).
Proof. by intros s Hs. Qed.

Lemma preserves_forEach P {A} (xs : list A) (f : A → M unit) :
  (∀ x, preserves P (f x)) → preserves P (forEach xs f).
Proof.
  intros Hf. induction xs as [|x xs IH]; simpl.
  - apply preserves_ret.
  - apply preserves_bind; [apply Hf|done].
Qed.

(** The heart of [set]: once the [Reference] holds an unwrapped value, the
    heap is well-formed, even if it was not at [this] before. *)
Lemma set_establishes_wf this v s :
  (∀ l o, l ≠ this → heap s !! l = Some o → ref_ok (heap s) o = true) →
  (∀ e0 accs, heap s !! this = Some (OReference e0 accs) →
              accs !! "__reference" = None) →
  (∀ u, unwrapReference W (heap s) v = Ok u →
        is_Reference (heap s) u = false ∧ closed (heap s) u = true) →
  (snd (set W this v s) = s ∧
   ((∃ e, unwrapReference W (heap s) v = Throw e) ∨
    (∀ e0 accs, heap s !! this ≠ Some (OReference e0 accs))))
  ∨ wf_refs (heap (snd (set W this v s))).
Proof.
  intros Hothers Hmark Hunwrap. unfold set, bind, read.
  destruct (unwrapReference W (heap s) v) as [u|] eqn:Hu; [|left; eauto].
  destruct (Hunwrap u eq_refl) as [Hnr Hcu].
  destruct (assign_entity this u s) as [r s1] eqn:Ha.
  apply assign_entity_inv in Ha as [(e0 & accs & Hthis & -> & ->)|(? & -> & ? & ->)];
    [|left; eauto].
  right. simpl. unfold this_entity. rewrite lookup_insert_eq.
  assert (kinds_kept (heap s) (<[this := OReference u accs]> (heap s))) as Hk
    by by eapply kinds_kept_insert.
  assert (wf_refs (<[this := OReference u accs]> (heap s))) as Hwf1.
  { intros l o. destruct (decide (this = l)) as [<-|Hne].
    - rewrite lookup_insert_eq. intros [= <-]. simpl.
      rewrite (Hmark _ _ Hthis). simpl.
      destruct u as [| | | | |x]; try done. simpl in Hnr, Hcu.
      apply bool_decide_eq_true in Hcu as [o Ho]. rewrite Ho in Hnr.
      unfold data_obj. destruct (decide (this = x)) as [<-|Hne].
      + rewrite Hthis in Ho. by simplify_eq.
      + rewrite lookup_insert_ne, Ho by done. by destruct o.
    - rewrite lookup_insert_ne by done. intros Hl.
      eapply ref_ok_kinds_kept; [done|]. eapply Hothers; [|done]. done. }
  destruct (helper _ u) as [l|] eqn:Hl; [|done].
  destruct (assign_reference l None _) as [r s2] eqn:Hm.
  apply assign_reference_inv in Hm as [(fields & w & Hw & -> & ->)|(_ & -> & ? & ->)];
    [|done].
  simpl in *. apply wf_refs_insert; [done|by eapply kinds_kept_insert|].
  by pose proof (Hwf1 _ _ Hw).
Qed.

(** [set] keeps the heap well-formed, whether it returns or throws. *)
Lemma set_wf_refs this v : preserves wf_refs (set W this v).
Proof.
  intros s Hwf.
  destruct (set_establishes_wf this v s) as [[-> _]| ?]; try done.
  - intros l o _ Hl. by eapply Hwf.
  - intros e0 accs Hthis. pose proof (Hwf _ _ Hthis) as Hok. simpl in Hok.
    apply andb_true_iff in Hok as [Ha _]. by apply bool_decide_eq_true in Ha.
  - intros u Hu. pose proof (unwrapReference_Ok_closed _ _ _ Hu) as Hc.
    destruct (unwrapReference_wf _ v Hwf Hc) as (u' & Hu' & Hnr & Hcu & _).
    rewrite Hu in Hu'. by injection Hu' as <-.
Qed.

Lemma defineProperty_wf_refs this k g : preserves wf_refs (defineProperty this k g).
Proof.
  intros s Hwf. unfold defineProperty.
  destruct (heap s !! this) as [[e accs| |]|] eqn:Hthis; try done.
  case_bool_decide as Hres; [done|].
  destruct (accs !! k) eqn:Hk; [done|]. simpl.
  apply wf_refs_insert; [done|by eapply kinds_kept_insert|].
  pose proof (Hwf _ _ Hthis) as Hok. simpl in *.
  apply andb_true_iff in Hok as [Ha He]. apply bool_decide_eq_true in Ha.
  apply andb_true_iff. split.
  - apply bool_decide_eq_true. rewrite lookup_insert_ne; [done|].
    intros ->. apply Hres. unfold reserved. set_solver.
  - destruct e; try done.
    by eapply (kinds_kept_insert _ _ _ (OReference (VObj l) (<[k:=g]> accs)) Hthis).
Qed.

(** Allocation does not disturb what [unwrapReference] reads. *)
Lemma unwrapReference_alloc (h : gmap loc obj) this o x :
  wf_refs h → closed h x = true → h !! this = None →
  unwrapReference W (<[this := o]> h) x = unwrapReference W h x.
Proof.
  intros Hwf Hx Hfresh.
  destruct x as [| |b|n|s|l]; try done.
  - unfold unwrapReference.
    destruct b; [by rewrite !isReference_primitive|by rewrite !isReference_falsy].
  - unfold unwrapReference. destruct (truthy (VNum n)) eqn:E;
      [by rewrite !isReference_primitive|by rewrite !isReference_falsy].
  - unfold unwrapReference. destruct (truthy (VStr s)) eqn:E;
      [by rewrite !isReference_primitive|by rewrite !isReference_falsy].
  - simpl in Hx. apply bool_decide_eq_true in Hx as [ol Hl].
    assert (this ≠ l) as Hne by (intros ->; by rewrite Hfresh in Hl).
    pose proof (Hwf _ _ Hl) as Hok.
    assert (<[this := o]> h !! l = Some ol) as Hl' by by rewrite lookup_insert_ne.
    unfold unwrapReference.
    destruct ol as [e accs|fields w|fields]; simpl in Hok.
    + apply andb_true_iff in Hok as [Ha _]. apply bool_decide_eq_true in Ha.
      rewrite (isReference_Reference _ _ _ _ Hl Ha).
      rewrite (isReference_Reference _ _ _ _ Hl' Ha). simpl. by rewrite Hl, Hl'.
    + apply negb_true_iff in Hok.
      rewrite (isReference_fields h _ fields) by eauto.
      rewrite (isReference_fields (<[this := o]> h) _ fields) by eauto.
      simpl. by rewrite Hok.
    + apply negb_true_iff in Hok.
      rewrite (isReference_fields h _ fields) by eauto.
      rewrite (isReference_fields (<[this := o]> h) _ fields) by eauto.
      simpl. by rewrite Hok.
Qed.

Lemma fresh_lookup_None (h : gmap loc obj) : h !! fresh (dom h) = None.
Proof. apply not_elem_of_dom, is_fresh. Qed.

(** The constructor keeps the heap well-formed, whether it returns or
    throws: the parameter property may hold a [Reference] only until the
    call of [set] in the first line of the body. *)
Lemma new_Reference_wf_refs entity s :
  wf_refs (heap s) → closed (heap s) entity = true →
  wf_refs (heap (snd (new_Reference W entity s))).
Proof.
  intros Hwf Hc. unfold new_Reference.
  set (this := fresh (dom (heap s))).
  assert (heap s !! this = None) as Hfresh by apply fresh_lookup_None.
  set (s0 := {| heap := <[this := OReference entity ∅]> (heap s); trace := trace s |}).
  rewrite (bind_Ok _ _ s this s0) by done.
  destruct (unwrapReference_wf _ entity Hwf Hc) as (u & Hu & Hnr & Hcu & _).
  assert (unwrapReference W (heap s0) entity = Ok u) as Hu0
    by (simpl; by rewrite unwrapReference_alloc).
  assert (kinds_kept (heap s) (heap s0)) as Hk by by apply kinds_kept_alloc.
  destruct (set_establishes_wf this entity s0) as [[_ [[e He]|Hno]]|Hwf1].
  - intros l o Hne. simpl. rewrite lookup_insert_ne by done. intros Hl.
    eapply ref_ok_kinds_kept; [done|]. by eapply Hwf.
  - simpl. intros e0 accs. rewrite lookup_insert_eq. by intros [= _ <-].
  - intros u'. rewrite Hu0. intros [= <-]. simpl. split.
    + destruct u as [| | | | |x]; try done. simpl in *.
      apply bool_decide_eq_true in Hcu as [ox Hx].
      assert (this ≠ x) by (intros ->; by rewrite Hfresh in Hx).
      by rewrite lookup_insert_ne.
    + destruct u as [| | | | |x]; try done. simpl in *.
      apply bool_decide_eq_true in Hcu as [ox Hx].
      assert (this ≠ x) by (intros ->; by rewrite Hfresh in Hx).
      apply bool_decide_eq_true. rewrite lookup_insert_ne by done. eauto.
  - by rewrite Hu0 in He.
  - exfalso. eapply Hno. simpl. apply lookup_insert_eq.
  - revert Hwf1. unfold bind at 1. destruct (set W this entity s0) as [[[]|e] s1];
      simpl; [|done].
    intros Hwf1. apply preserves_apply; [|done].
    repeat first [ apply preserves_bind; [|intros ?]
                 | apply preserves_read | apply preserves_ret
                 | apply preserves_forEach; intros ?
                 | apply defineProperty_wf_refs ]; try done.
    match goal with
    | |- context [serializedPrimaryKey ?m] =>
        destruct (serializedPrimaryKey m) as [spk|]; [|apply preserves_ret]
    end.
    match goal with
    | |- context [if ?b then _ else _] =>
        destruct b; [apply defineProperty_wf_refs|apply preserves_ret]
    end.
Qed.

(** ** The constructor *)

Lemma state_eta s : {| heap := heap s; trace := trace s |} = s.
Proof. by destruct s. Qed.

Lemma pk_accessors_lookup pks accs k :
  pk_accessors accs pks !! k
  = if decide (k ∈ pks) then Some (PkGetter k) else accs !! k.
Proof.
  revert accs. induction pks as [|pk pks IH]; intros accs.
  - destruct (decide (k ∈ [])) as [Hin|_]; [by apply elem_of_nil in Hin|done].
  - change (pk_accessors accs (pk :: pks))
      with (pk_accessors (<[pk := PkGetter pk]> accs) pks).
    rewrite IH. destruct (decide (k ∈ pks)) as [Hin|Hnin].
    + rewrite decide_True; [done|set_solver].
    + destruct (decide (k = pk)) as [->|Hne].
      * rewrite lookup_insert_eq. rewrite decide_True; [done|set_solver].
      * rewrite lookup_insert_ne by done. rewrite decide_False; [done|].
        intros [?|?]%elem_of_cons; done.
Qed.

Lemma forEach_defineProperty_Ok this pks s e accs :
  heap s !! this = Some (OReference e accs) →
  NoDup pks → (∀ k, k ∈ pks → (k ∉ reserved) ∧ accs !! k = None) →
  forEach pks (λ primaryKey, defineProperty this primaryKey (PkGetter primaryKey)) s
  = (Ok tt, {| heap := <[this := OReference e (pk_accessors accs pks)]> (heap s);
               trace := trace s |}).
Proof.
  revert s accs. induction pks as [|pk pks IH]; intros s accs Hthis Hnd Hpks; simpl.
  - unfold ret. rewrite insert_id by done. by rewrite state_eta.
  - apply NoDup_cons in Hnd as [Hpk Hnd].
    destruct (Hpks pk) as [Hres Hnone]; [apply elem_of_cons; by left|].
    set (s1 := {| heap := <[this := OReference e (<[pk := PkGetter pk]> accs)]> (heap s);
                  trace := trace s |}).
    rewrite (bind_Ok _ _ s tt s1).
    + rewrite (IH s1 (<[pk := PkGetter pk]> accs)); simpl.
      * by rewrite insert_insert_eq.
      * by rewrite lookup_insert_eq.
      * done.
      * intros k Hk. destruct (Hpks k) as [? ?]; [apply elem_of_cons; by right|].
        split; [done|].
        rewrite lookup_insert_ne; [done|]. intros ->. done.
    + unfold defineProperty. rewrite Hthis.
      rewrite bool_decide_eq_false_2 by done. by rewrite Hnone.
Qed.

(** [set] with an argument that unwraps to an entity. *)
Lemma set_Ok this v s e0 accs l fields w :
  unwrapReference W (heap s) v = Ok (VObj l) →
  heap s !! this = Some (OReference e0 accs) →
  heap s !! l = Some (OEntity fields w) →
  set W this v s
  = (Ok tt, {| heap := <[l := OEntity fields (with_reference w None)]>
                         (<[this := OReference (VObj l) accs]> (heap s));
               trace := trace s |}).
Proof.
  intros Hu Hthis Hl.
  assert (l ≠ this) as Hne by (intros ->; rewrite Hthis in Hl; done).
  unfold set. rewrite (bind_Ok _ _ s (VObj l) s) by by apply read_Ok.
  unfold bind, assign_entity, store, read, this_entity. rewrite Hthis. simpl.
  rewrite lookup_insert_eq.
  assert (<[this := OReference (VObj l) accs]> (heap s) !! l
          = Some (OEntity fields w)) as Hl1 by by rewrite lookup_insert_ne.
  rewrite (helper_entity _ _ _ _ Hl1).
  unfold assign_reference, update_wrapped, store. simpl. by rewrite Hl1.
Qed.

Lemma unwrapReference_entity (h : gmap loc obj) l :
  wf_refs h → isEntity h (VObj l) = true →
  unwrapReference W h (VObj l) = Ok (VObj l).
Proof.
  intros Hwf He. simpl in He.
  destruct (h !! l) as [[| |]|] eqn:Hl; try discriminate.
  destruct (unwrapReference_wf h (VObj l) Hwf) as (u & Hu & _ & _ & _ & Hsame).
  - simpl. apply bool_decide_eq_true. eauto.
  - rewrite Hu. f_equal. apply Hsame. simpl. by rewrite Hl.
Qed.

(** The constructor on an entity with good metadata. *)
Lemma new_Reference_Ok s l fields w :
  wf_refs (heap s) →
  heap s !! l = Some (OEntity fields w) → meta_ok (__meta w) = true →
  new_Reference W (VObj l) s
  = (Ok (fresh (dom (heap s))),
     {| heap := <[fresh (dom (heap s)) := OReference (VObj l) (accessors_of (__meta w))]>
                  (<[l := OEntity fields (with_reference w None)]> (heap s));
        trace := trace s |}).
Proof.
  intros Hwf Hl Hmeta. unfold new_Reference.
  set (this := fresh (dom (heap s))).
  assert (heap s !! this = None) as Hfresh by apply fresh_lookup_None.
  assert (this ≠ l) as Hne by (intros Heq; rewrite Heq, Hl in Hfresh; done).
  set (s0 := {| heap := <[this := OReference (VObj l) ∅]> (heap s); trace := trace s |}).
  rewrite (bind_Ok _ _ s this s0) by done.
  assert (heap s0 !! l = Some (OEntity fields w)) as Hl0
    by (simpl; by rewrite lookup_insert_ne).
  assert (unwrapReference W (heap s0) (VObj l) = Ok (VObj l)) as Hu.
  { simpl. rewrite unwrapReference_alloc; try done.
    - apply unwrapReference_entity; [done|]. simpl. by rewrite Hl.
    - simpl. apply bool_decide_eq_true. eauto. }
  rewrite (bind_Ok _ _ s0 tt _ (set_Ok this _ s0 _ _ _ _ _ Hu (lookup_insert_eq _ _ _) Hl0)).
  simpl. rewrite insert_insert_eq.
  set (h1 := <[l := OEntity fields (with_reference w None)]>
               (<[this := OReference (VObj l) ∅]> (heap s))).
  assert (h1 !! this = Some (OReference (VObj l) ∅)) as Hthis1.
  { unfold h1. rewrite lookup_insert_ne by done. apply lookup_insert_eq. }
  assert (h1 !! l = Some (OEntity fields (with_reference w None))) as Hl1
    by apply lookup_insert_eq.
  unfold bind at 1, read at 1, this_entity. simpl. rewrite Hthis1.
  unfold bind at 1, read at 1. simpl. rewrite (helper_entity _ _ _ _ Hl1).
  unfold bind at 1, read at 1, wrapped. simpl. rewrite Hl1. simpl.
  apply andb_true_iff in Hmeta as [[Hnd Hres]%andb_true_iff Hspk].
  apply bool_decide_eq_true in Hnd, Hres.
  assert (∀ k, k ∈ primaryKeys (__meta w) →
               (k ∉ reserved) ∧ (∅ : gmap string getter) !! k = None) as Hkeys.
  { intros k Hk. split; [|done]. by eapply Forall_forall in Hres. }
  rewrite (bind_Ok _ _ _ tt _
             (forEach_defineProperty_Ok this (primaryKeys (__meta w))
                {| heap := h1; trace := trace s |} (VObj l) ∅ Hthis1 Hnd Hkeys)).
  simpl.
  assert (<[this := OReference (VObj l) (accessors_of (__meta w))]>
            (<[l := OEntity fields (with_reference w None)]> (heap s))
          = <[this := OReference (VObj l) (accessors_of (__meta w))]> h1) as ->.
  { unfold h1. same_heap. }
  unfold accessors_of.
  destruct (serializedPrimaryKey (__meta w)) as [spk|]; [|reflexivity].
  destruct (has_serialized_accessor (__meta w) spk) eqn:Hhas;
    unfold has_serialized_accessor in Hhas; simpl in Hhas; rewrite Hhas;
    [|reflexivity].
  apply andb_true_iff in Hspk as [Hn1 Hn2]. apply bool_decide_eq_true in Hn1, Hn2.
  unfold bind, defineProperty, store, ret. simpl. rewrite lookup_insert_eq.
  rewrite bool_decide_eq_false_2 by done.
  rewrite pk_accessors_lookup, decide_False by done. rewrite lookup_empty. simpl.
  by rewrite insert_insert_eq.
Qed.

(** ** The accessors *)

Lemma get_prop_accessor_pk (h : gmap loc obj) this l accs fields w k pk :
  h !! this = Some (OReference (VObj l) accs) →
  h !! l = Some (OEntity fields w) →
  accs !! k = Some (PkGetter pk) →
  get_prop W h (VObj this) k = Ok (default VUndefined (fields !! pk)).
Proof.
  intros Hthis Hl Hk. unfold get_prop.
  destruct (size_lookup_pos h this _ Hthis) as [n ->]. simpl.
  rewrite Hthis, Hk. apply get_prop_at_fields. eauto.
Qed.

Lemma get_prop_accessor_serialized (h : gmap loc obj) this l accs fields w k :
  h !! this = Some (OReference (VObj l) accs) →
  h !! l = Some (OEntity fields w) →
  accs !! k = Some SerializedPkGetter →
  get_prop W h (VObj this) k = Ok (getSerializedPrimaryKey W h l).
Proof.
  intros Hthis Hl Hk. unfold get_prop.
  destruct (size h); simpl; by rewrite Hthis, Hk, (helper_entity _ _ _ _ Hl).
Qed.

(** A [set] to an entity that returns. *)
Lemma set_entity_Ok_inv this l s s' :
  isEntity (heap s) (VObj l) = true →
  set W this (VObj l) s = (Ok tt, s') →
  ∃ e0 accs fields w,
    heap s !! this = Some (OReference e0 accs) ∧
    heap s !! l = Some (OEntity fields w) ∧ l ≠ this ∧
    s' = {| heap := <[l := OEntity fields (with_reference w None)]>
                      (<[this := OReference (VObj l) accs]> (heap s));
            trace := trace s |}.
Proof.
  intros He Hset. simpl in He.
  destruct (heap s !! l) as [[|fields w|]|] eqn:Hl; try discriminate.
  apply set_Ok_inv in Hset as (u & e0 & accs & l' & fields' & w' & Hu & Hthis & Hh & Hw & ->).
  assert (l ≠ this) as Hne by (intros ->; rewrite Hthis in Hl; done).
  assert (u = VObj l) as ->.
  { unfold unwrapReference in Hu.
    rewrite (isReference_fields _ _ fields) in Hu by eauto. simpl in Hu.
    destruct (truthy (own_marker fields)); simpl in Hu; [|by injection Hu].
    by rewrite Hl in Hu. }
  assert (<[this := OReference (VObj l) accs]> (heap s) !! l
          = Some (OEntity fields w)) as Hl1 by by rewrite lookup_insert_ne.
  rewrite (helper_entity _ _ _ _ Hl1) in Hh. injection Hh as <-.
  rewrite Hl1 in Hw. injection Hw as <- <-.
  by exists e0, accs, fields, w.
Qed.

(** ** [create] *)

Lemma handle_ok_inv (h : gmap loc obj) l :
  handle_ok h l = true →
  ∃ fields w, h !! l = Some (OEntity fields w) ∧ meta_ok (__meta w) = true ∧
    ∀ r, __reference w = Some r → is_Reference h (VObj r) = true.
Proof.
  unfold handle_ok. destruct (h !! l) as [[|fields w|]|]; try discriminate.
  intros [Hm Hr]%andb_true_iff. exists fields, w. split_and!; try done.
  intros r Hw. by rewrite Hw in Hr.
Qed.

Lemma unwrapReference_persisted (h : gmap loc obj) v l :
  wf_refs h → isEntity h (VObj l) = true →
  v = VObj l ∨ (∃ r0, v = VObj r0 ∧ wraps h r0 l) →
  unwrapReference W h v = Ok (VObj l) ∧ helper h v = Ok l.
Proof.
  intros Hwf He [->|(r0 & -> & accs & Hr0)].
  - split; [by apply unwrapReference_entity|].
    simpl in He. destruct (h !! l) as [[| |]|] eqn:Hl; try discriminate.
    by eapply helper_entity.
  - simpl in He. destruct (h !! l) as [[|fields w|]|] eqn:Hl; try discriminate.
    split; [|by eapply helper_reference].
    destruct (unwrapReference_wf h (VObj r0) Hwf) as (u & Hu & _ & _ & Hr & _).
    + simpl. apply bool_decide_eq_true. eauto.
    + rewrite Hu. f_equal. by eapply Hr.
Qed.

(** [create] on a persisted handle, raw or wrapped: it returns a [Reference]
    that wraps the handle; the heap stays well-formed and the handle
    persisted; no collaborator is called; and every [Reference] that wrapped
    the handle still does. *)
Lemma create_Ok s v l :
  wf_refs (heap s) → handle_ok (heap s) l = true →
  v = VObj l ∨ (∃ r0, v = VObj r0 ∧ wraps (heap s) r0 l) →
  ∃ ref s',
    create W v s = (Ok (VObj ref), s') ∧
    wraps (heap s') ref l ∧
    wf_refs (heap s') ∧ handle_ok (heap s') l = true ∧
    trace s' = trace s ∧
    (∀ r, wraps (heap s) r l → wraps (heap s') r l).
Proof.
  intros Hwf Hok Hv.
  destruct (handle_ok_inv _ _ Hok) as (fields & w & Hl & Hmeta & Hmark).
  assert (isEntity (heap s) (VObj l) = true) as He by (simpl; by rewrite Hl).
  destruct (unwrapReference_persisted _ v l Hwf He Hv) as [Hu Hh].
  unfold create.
  rewrite (bind_Ok _ _ s (VObj l) s) by by apply read_Ok.
  rewrite (bind_Ok _ _ s l s) by by apply read_Ok.
  destruct (__reference w) as [r|] eqn:Hw.
  - (* the marker names the canonical Reference *)
    pose proof (Hmark r eq_refl) as Hr. simpl in Hr.
    destruct (heap s !! r) as [[e accs| |]|] eqn:Er; try discriminate.
    rewrite (bind_Ok _ _ s r s).
    2:{ unfold toReference. rewrite (bind_Ok _ _ s w s); [by rewrite Hw|].
        apply read_Ok. unfold wrapped. by rewrite Hl. }
    rewrite (bind_Ok _ _ s e s).
    2:{ unfold unwrap. apply read_Ok. unfold this_entity. by rewrite Er. }
    unfold strict_eq. case_bool_decide as Hsame; simpl.
    + subst e. exists r, s. unfold bind, ret. split_and!; try done. by exists accs.
    + pose proof (set_Ok r (VObj l) s e accs l fields w
                    (unwrapReference_entity _ _ Hwf He) Er Hl) as Hset.
      pose proof (set_wf_refs r (VObj l) s Hwf) as Hwf'.
      rewrite Hset in Hwf'. simpl in Hwf'.
      rewrite (bind_Ok _ _ _ _ _ Hset). unfold ret.
      assert (l ≠ r) as Hne by (intros ->; rewrite Er in Hl; done).
      eexists r, _. split; [reflexivity|]. simpl. split_and!; try done.
      * exists accs. rewrite lookup_insert_ne by done. apply lookup_insert_eq.
      * unfold handle_ok. rewrite lookup_insert_eq. simpl. by rewrite Hmeta.
      * intros r' [a' Hr']. assert (r' ≠ l) by (intros ->; rewrite Hl in Hr'; done).
        unfold wraps. rewrite lookup_insert_ne by done.
        destruct (decide (r' = r)) as [->|Hne'].
        -- rewrite lookup_insert_eq. by exists accs.
        -- rewrite lookup_insert_ne by done. by exists a'.
  - (* no marker: a new Reference becomes the canonical one *)
    set (this := fresh (dom (heap s))).
    assert (heap s !! this = None) as Hfresh by apply fresh_lookup_None.
    assert (this ≠ l) as Hne by (intros Heq; rewrite Heq, Hl in Hfresh; done).
    pose proof (new_Reference_Ok s l fields w Hwf Hl Hmeta) as Hnew.
    fold this in Hnew.
    pose proof (new_Reference_wf_refs (VObj l) s Hwf) as Hwf1.
    rewrite Hnew in Hwf1. simpl in Hwf1.
    specialize (Hwf1 ltac:(apply bool_decide_eq_true; eauto)).
    set (h1 := <[this := OReference (VObj l) (accessors_of (__meta w))]>
                 (<[l := OEntity fields (with_reference w None)]> (heap s))) in *.
    assert (h1 !! l = Some (OEntity fields (with_reference w None))) as Hl1.
    { unfold h1. rewrite lookup_insert_ne by done. apply lookup_insert_eq. }
    set (h2 := <[l := OEntity fields (with_reference w (Some this))]> h1).
    rewrite (bind_Ok _ _ s this {| heap := h2; trace := trace s |}).
    2:{ unfold toReference. rewrite (bind_Ok _ _ s w s).
        2:{ apply read_Ok. unfold wrapped. by rewrite Hl. }
        rewrite Hw. rewrite (bind_Ok _ _ _ _ _ Hnew).
        unfold bind, assign_reference, update_wrapped, store, ret. simpl.
        fold h1. by rewrite Hl1. }
    assert (h2 !! this = Some (OReference (VObj l) (accessors_of (__meta w)))) as Hthis2.
    { unfold h2, h1. rewrite lookup_insert_ne by done. apply lookup_insert_eq. }
    rewrite (bind_Ok _ _ _ (VObj l) {| heap := h2; trace := trace s |}).
    2:{ unfold unwrap. apply read_Ok. unfold this_entity. simpl. by rewrite Hthis2. }
    unfold strict_eq. rewrite bool_decide_eq_true_2 by done. simpl.
    eexists this, _. split; [reflexivity|]. simpl. split_and!; try done.
    + by eexists.
    + apply wf_refs_insert; [done|by eapply kinds_kept_insert|].
      by pose proof (Hwf1 _ _ Hl1).
    + unfold handle_ok, h2. rewrite lookup_insert_eq. simpl. rewrite Hmeta. simpl.
      fold h2. by rewrite Hthis2.
    + intros r' [a' Hr']. assert (r' ≠ l) by (intros ->; rewrite Hl in Hr'; done).
      assert (r' ≠ this) by (intros ->; rewrite Hfresh in Hr'; done).
      exists a'. unfold h2, h1. by rewrite !lookup_insert_ne.
Qed.

End Facts.

(** * The properties *)

Section Properties.

Variable W : Collaborators.

(** C1.  After [r.set(h2)] has returned for a handle [h2], [r.unwrap()] is
    [h2], and in every state in which [r] wraps [h2] (the one right after
    [set], and any later one in which the fields of [h2] have changed) each
    primary-key accessor of [r] returns the value that the field has on [h2]
    in that state, and the serialized accessor what the helper of [h2]
    computes there; reading an accessor changes nothing, neither the heap (so
    no initialization flag) nor the trace (so no fetch is awaited).  The
    accessors are the ones the constructor installs, one forwarding getter
    under the name of each primary key. *)
Theorem accessors_follow_the_wrapped_handle (s : state) this (h2 : loc) :
  (∀ s', isEntity (heap s) (VObj h2) = true →
         set W this (VObj h2) s = (Ok tt, s') →
     unwrap this s' = (Ok (VObj h2), s') ∧
     ∃ accs e0 fields w,
       heap s !! this = Some (OReference e0 accs) ∧
       heap s' !! this = Some (OReference (VObj h2) accs) ∧
       heap s' !! h2 = Some (OEntity fields w) ∧
       ∀ s2 fields2 w2,
         heap s2 !! this = Some (OReference (VObj h2) accs) →
         heap s2 !! h2 = Some (OEntity fields2 w2) →
         (∀ k pk, accs !! k = Some (PkGetter pk) →
            read_accessor W this k s2
            = (Ok (default VUndefined (fields2 !! pk)), s2)) ∧
         (∀ k, accs !! k = Some SerializedPkGetter →
            read_accessor W this k s2
            = (Ok (getSerializedPrimaryKey W (heap s2) h2), s2))) ∧
  (∀ fields w,
     wf_refs (heap s) → heap s !! h2 = Some (OEntity fields w) →
     meta_ok (__meta w) = true →
     ∃ r s', new_Reference W (VObj h2) s = (Ok r, s') ∧
       heap s' !! r = Some (OReference (VObj h2) (accessors_of (__meta w))) ∧
       (∀ pk, pk ∈ primaryKeys (__meta w) →
              accessors_of (__meta w) !! pk = Some (PkGetter pk)) ∧
       (∀ k g, accessors_of (__meta w) !! k = Some g →
               g = PkGetter k ∨ g = SerializedPkGetter)).
Proof.
  split.
  - intros s' He Hset.
    destruct (set_entity_Ok_inv W _ _ _ _ He Hset)
      as (e0 & accs & fields & w & Hthis & Hl & Hne & ->). simpl.
    assert (<[h2 := OEntity fields (with_reference w None)]>
              (<[this := OReference (VObj h2) accs]> (heap s)) !! this
            = Some (OReference (VObj h2) accs)) as Hthis'.
    { rewrite lookup_insert_ne by done. apply lookup_insert_eq. }
    split.
    + unfold unwrap, read, this_entity. simpl. by rewrite Hthis'.
    + exists accs, e0, fields, (with_reference w None).
      split_and!; [done|done|apply lookup_insert_eq|].
      intros s2 fields2 w2 Hthis2 Hl2. split.
      * intros k pk Hk. unfold read_accessor, read.
        by rewrite (get_prop_accessor_pk W _ _ _ _ _ _ _ _ Hthis2 Hl2 Hk).
      * intros k Hk. unfold read_accessor, read.
        by rewrite (get_prop_accessor_serialized W _ _ _ _ _ _ _ Hthis2 Hl2 Hk).
  - intros fields w Hwf Hl Hmeta.
    eexists _, _. split; [by apply new_Reference_Ok|]. simpl.
    split_and!; [apply lookup_insert_eq| |].
    + intros pk Hpk.
      apply andb_true_iff in Hmeta as [_ Hspk]. unfold accessors_of.
      assert (pk_accessors ∅ (primaryKeys (__meta w)) !! pk = Some (PkGetter pk)) as Hpks
        by (rewrite pk_accessors_lookup; by rewrite decide_True).
      destruct (serializedPrimaryKey (__meta w)) as [spk|]; [|done].
      destruct (has_serialized_accessor (__meta w) spk); [|done].
      apply andb_true_iff in Hspk as [Hn _]. apply bool_decide_eq_true in Hn.
      rewrite lookup_insert_ne; [done|]. by intros ->.
    + intros k g. unfold accessors_of.
      assert (∀ g', pk_accessors ∅ (primaryKeys (__meta w)) !! k = Some g' →
                    g' = PkGetter k) as Hpks.
      { intros g'. rewrite pk_accessors_lookup. case_decide; [by intros [= <-]|done]. }
      destruct (serializedPrimaryKey (__meta w)) as [spk|]; [|by left; apply Hpks].
      destruct (has_serialized_accessor (__meta w) spk); [|by left; apply Hpks].
      destruct (decide (spk = k)) as [->|Hne].
      * rewrite lookup_insert_eq. intros [= <-]. by right.
      * rewrite lookup_insert_ne by done. by left; apply Hpks.
Qed.


(** C3, as amended.  On a [Reference] whose wrapped handle is not
    initialized, [getEntity], and [getProperty] through it, throw an [Error]
    whose message is [Reference<name> pk not initialized]: it contains the
    declared name of the entity and the primary key as [getPrimaryKey]
    returns it, converted to a string as the template literal does; the
    serialized primary key is not asked for.  On a [Reference] whose wrapped
    handle is initialized, [getEntity] returns that handle, and nothing
    changes. *)
Theorem getEntity_initialized_or_throws (s : state) this l accs fields w :
  heap s !! this = Some (OReference (VObj l) accs) →
  heap s !! l = Some (OEntity fields w) →
  (__initialized w = false →
     ∃ message,
       getEntity W this s = (Throw (Error message), s) ∧
       (∀ prop, getProperty W this prop s = (Throw (Error message), s)) ∧
       message = "Reference<" ++ name (__meta w) ++ "> "
                 ++ to_string W (heap s) (getPrimaryKey W (heap s) l)
                 ++ " not initialized" ∧
       contains (name (__meta w)) message ∧
       contains (to_string W (heap s) (getPrimaryKey W (heap s) l)) message) ∧
  (__initialized w = true →
     getEntity W this s = (Ok (VObj l), s) ∧
     ∀ prop, getProperty W this prop s
             = (Ok (default VUndefined (fields !! prop)), s)).
Proof.
  intros Hthis Hl.
  assert (isInitialized this s = (Ok (__initialized w), s)) as Hinit.
  { unfold isInitialized, bind, read, this_entity, wrapped, ret.
    by rewrite Hthis, (helper_entity _ _ _ _ Hl), Hl. }
  split; intros Hi.
  - assert (getEntity W this s
            = (Throw (Error (not_initialized_message W (heap s) l w)), s)) as Hget.
    { unfold getEntity. rewrite (bind_Ok _ _ _ _ _ Hinit), Hi. simpl.
      unfold bind, read, this_entity, wrapped, throw.
      by rewrite Hthis, (helper_entity _ _ _ _ Hl), Hl. }
    eexists. split_and!; [exact Hget| |reflexivity| |].
    + intros prop. unfold getProperty. by rewrite (bind_Throw _ _ _ _ _ Hget).
    + by exists "Reference<", ("> " ++ to_string W (heap s) (getPrimaryKey W (heap s) l)
                              ++ " not initialized").
    + exists ("Reference<" ++ name (__meta w) ++ "> "), " not initialized".
      unfold not_initialized_message. by rewrite !string_app_assoc.
  - assert (getEntity W this s = (Ok (VObj l), s)) as Hget.
    { unfold getEntity. rewrite (bind_Ok _ _ _ _ _ Hinit), Hi. simpl.
      unfold read, this_entity. by rewrite Hthis. }
    split; [done|]. intros prop. unfold getProperty.
    rewrite (bind_Ok _ _ _ _ _ Hget). unfold read.
    by rewrite (get_prop_entity W _ _ _ _ _ Hl).
Qed.


(** C6.  A [set] that returns, on a well-formed heap: the argument is
    unwrapped when it is a [Reference] and taken as it is otherwise; the
    result, an entity, is the new [entity] of the [Reference]; the marker of
    that entity's helper is cleared, its fields and the rest of its helper
    are as before; no other object changes, the previously wrapped handle
    included; and nothing is added to the trace, so no fetch is issued.
    [set] does return when its argument is a persisted handle, raw or
    wrapped. *)
Theorem set_repoints_and_clears_marker (s : state) this (v : value) :
  wf_refs (heap s) →
  (∀ s', set W this v s = (Ok tt, s') →
     ∃ l e0 accs fields w,
       unwrapReference W (heap s) v = Ok (VObj l) ∧
       (∀ r e a, v = VObj r → heap s !! r = Some (OReference e a) → e = VObj l) ∧
       (is_Reference (heap s) v = false → v = VObj l) ∧
       heap s !! this = Some (OReference e0 accs) ∧
       heap s' !! this = Some (OReference (VObj l) accs) ∧
       heap s !! l = Some (OEntity fields w) ∧
       heap s' !! l = Some (OEntity fields (with_reference w None)) ∧
       __reference (with_reference w None) = None ∧
       __meta (with_reference w None) = __meta w ∧
       __initialized (with_reference w None) = __initialized w ∧
       (∀ l', l' ≠ this → l' ≠ l → heap s' !! l' = heap s !! l') ∧
       trace s' = trace s ∧ fetches s' = fetches s) ∧
  (∀ l e0 accs,
     heap s !! this = Some (OReference e0 accs) →
     isEntity (heap s) (VObj l) = true →
     v = VObj l ∨ (∃ r0, v = VObj r0 ∧ wraps (heap s) r0 l) →
     ∃ s', set W this v s = (Ok tt, s')).
Proof.
  intros Hwf. split.
  - intros s' Hset.
    destruct (set_Ok_wf W _ _ _ _ Hwf Hset)
      as (e0 & accs & l & fields & w & Hu & Hne & Hthis & Hl & ->).
    destruct (unwrapReference_wf W _ v Hwf (unwrapReference_Ok_closed W _ _ _ Hu))
      as (u & Hu' & _ & _ & Hr & Hn).
    rewrite Hu in Hu'. injection Hu' as <-.
    exists l, e0, accs, fields, w. simpl. split_and!; try done.
    + intros r e a Hv Hr0. symmetry. by eapply Hr.
    + intros Hv. symmetry. by apply Hn.
    + rewrite lookup_insert_ne by done. apply lookup_insert_eq.
    + apply lookup_insert_eq.
    + intros l' H1 H2. by rewrite !lookup_insert_ne.
  - intros l e0 accs Hthis He Hv.
    destruct (unwrapReference_persisted W _ v l Hwf He Hv) as [Hu _].
    simpl in He. destruct (heap s !! l) as [[|fields w|]|] eqn:Hl; try discriminate.
    eexists. by eapply set_Ok.
Qed.

(** C7, as amended.  On a well-formed heap, for every value [x] of the heap,
    [unwrapReference] returns the wrapped entity when [x] is a [Reference]
    and [x] itself otherwise; the result [u] is not a [Reference], and
    [isReference u] is never truthy: it is [false] when [u] is truthy and is
    the falsy [u] itself otherwise.  Well-formedness, which includes that the
    entity of a [Reference] is not a [Reference], is kept by [set], the only
    assignment to [entity], and by the constructor, whether they return or
    throw. *)
Theorem unwrapReference_strips_wrapper (h : gmap loc obj) (x : value) :
  wf_refs h → closed h x = true →
  (∃ u, unwrapReference W h x = Ok u ∧
        (∀ r e accs, x = VObj r → h !! r = Some (OReference e accs) → u = e) ∧
        (is_Reference h x = false → u = x) ∧
        is_Reference h u = false ∧
        isReference W h u = Ok (if truthy u then VBool false else u)) ∧
  (∀ r e accs, h !! r = Some (OReference e accs) → is_Reference h e = false) ∧
  (∀ this v tr,
     wf_refs (heap (snd (set W this v {| heap := h; trace := tr |})))) ∧
  (∀ tr, wf_refs (heap (snd (new_Reference W x {| heap := h; trace := tr |})))).
Proof.
  intros Hwf Hx. split_and!.
  - destruct (unwrapReference_wf W h x Hwf Hx) as (u & Hu & Hnr & Hcu & Hr & Hn).
    exists u. split_and!; try done.
    rewrite isReference_wf by done. by rewrite Hnr.
  - intros r e accs Hr. by destruct (wf_refs_entity h r e accs Hwf Hr).
  - intros this v tr. by apply (set_wf_refs W this v {| heap := h; trace := tr |}).
  - intros tr. by apply (new_Reference_wf_refs W x {| heap := h; trace := tr |}).
Qed.

(** C8.  [toJSON] of a [Reference] is the serialization of the wrapped
    handle with the same arguments, in result and in effect; two wrappers of
    one handle therefore serialize alike. *)
Theorem toJSON_delegates (s : state) this e accs (args : list value) :
  heap s !! this = Some (OReference e accs) →
  toJSON W this args s = handle_serialization W e args s ∧
  ∀ other accs', heap s !! other = Some (OReference e accs') →
                 toJSON W other args s = toJSON W this args s.
Proof.
  intros Hthis.
  assert (∀ r a, heap s !! r = Some (OReference e a) →
                 toJSON W r args s = handle_serialization W e args s) as H.
  { intros r a Hr. unfold toJSON, handle_serialization.
    rewrite (bind_Ok _ _ s e s); [done|].
    unfold read, this_entity. by rewrite Hr. }
  split; [by eapply H|]. intros other accs' Ho.
  by rewrite (H _ _ Ho), (H _ _ Hthis).
Qed.

(** C9, as amended.  For [null] and for [undefined], [Reference.isReference]
    does not throw and does not answer with the boolean [false]: the guard
    [data && ...] hands back its falsy operand, so the result is [null] for
    [null] and [undefined] for [undefined], both of which count as false in a
    condition.  The same holds of every falsy value, on every heap, and the
    marker is not read. *)
Theorem isReference_absent_value (h : gmap loc obj) :
  isReference W h VNull = Ok VNull ∧
  isReference W h VUndefined = Ok VUndefined ∧
  truthy VNull = false ∧ truthy VUndefined = false ∧
  (∀ data, truthy data = false →
           isReference W h data = Ok data ∧
           ∀ h', isReference W h' data = isReference W h data) ∧
  (∀ data, is_nullish data = true → ∀ e, isReference W h data ≠ Throw e).
Proof.
  split_and!; try done.
  - intros data Hd. split; [by apply isReference_falsy|].
    intros h'. by rewrite !isReference_falsy.
  - intros data Hd e. by destruct data.
Qed.

(** C10.  [rel] returns [pk] itself, leaving the state and the trace as they
    are (the factory is not called), when [pk] is [null], [undefined] or an
    entity.  For any other [pk], a bare identifier, it is
    [createNakedFromPK]: the factory is asked for a handle, and when it
    hands one out, that handle is the result, initialized or not exactly as
    the factory made it, with its primary keys marked as loaded and its
    snapshot taken. *)
Theorem rel_passes_or_builds (s : state) (entityType : string) (pk : value) :
  rel W entityType VNull s = (Ok VNull, s) ∧
  rel W entityType VUndefined s = (Ok VUndefined, s) ∧
  (∀ l fields w, pk = VObj l → heap s !! l = Some (OEntity fields w) →
     rel W entityType pk s = (Ok pk, s)) ∧
  (pk = VNull ∨ pk = VUndefined ∨ isEntity (heap s) pk = true →
     rel W entityType pk s = (Ok pk, s) ∧
     trace (snd (rel W entityType pk s)) = trace s ∧
     factory_calls (snd (rel W entityType pk s)) = factory_calls s) ∧
  (pk ≠ VNull → pk ≠ VUndefined → isEntity (heap s) pk = false →
     rel W entityType pk s = createNakedFromPK W entityType pk None s ∧
     (∃ rest, trace (snd (rel W entityType pk s))
              = (trace s ++ EvCreateReference entityType pk false false None
                             :: rest)%list) ∧
     ∀ l h1 fields w,
       createReference W entityType pk false false None (heap s)
       = (Ok (VObj l), h1) →
       h1 !! l = Some (OEntity fields w) →
       ∃ s' w',
         rel W entityType pk s = (Ok (VObj l), s') ∧
         heap s' = <[l := OEntity fields w']> h1 ∧
         __initialized w' = __initialized w ∧
         __meta w' = __meta w ∧ __reference w' = __reference w ∧
         (∀ k, k ∈ primaryKeys (__meta w) → k ∈ __loadedProperties w') ∧
         is_Some (__originalEntityData w') ∧
         trace s' = (trace s ++ [EvCreateReference entityType pk false false None;
                                 EvPrepareEntity (VObj l)])%list ∧
         factory_calls s' = S (S (factory_calls s))).
Proof.
  assert (∀ x, x = VNull ∨ x = VUndefined ∨ isEntity (heap s) x = true →
               rel W entityType x s = (Ok x, s)) as Hpass.
  { intros x Hx. unfold rel, bind, read, ret.
    destruct (is_nullish x) eqn:Hnull; [done|]. simpl.
    destruct Hx as [->|[->| ->]]; [discriminate|discriminate|done]. }
  split_and!.
  - apply Hpass. by left.
  - apply Hpass. right. by left.
  - intros l fields w -> Hl. apply Hpass. right. right. simpl. by rewrite Hl.
  - intros Hpk. by rewrite (Hpass pk Hpk).
  - intros Hn Hu Hent.
    assert (is_nullish pk = false) as Hnull by (by destruct pk).
    assert (rel W entityType pk s = createNakedFromPK W entityType pk None s) as Hrel.
    { unfold rel, bind at 1, read, ret. by rewrite Hnull, Hent. }
    split_and!; [done| |].
    + rewrite Hrel. apply extends_trace_createNakedFromPK.
    + intros l h1 fields w Hcreate Hl. rewrite Hrel.
      unfold createNakedFromPK, bind, log, call, read. simpl.
      rewrite Hcreate. simpl. rewrite (helper_entity _ _ _ _ Hl). simpl.
      unfold wrapped. rewrite Hl. unfold update_wrapped, store. simpl.
      rewrite Hl. simpl. rewrite lookup_insert_eq. simpl.
      eexists _, _. split; [reflexivity|]. simpl. rewrite insert_insert_eq.
      split_and!; try done.
      * simpl. intros k Hk. set_solver.
      * by rewrite <- app_assoc.
      * unfold factory_calls. simpl. rewrite <- app_assoc, filter_app, length_app.
        simpl. lia.
Qed.

End Properties.

(** * Counterexamples and instances on the concrete world *)

Lemma accessors_follow_the_wrapped_handle_witness :
  unwrap 3 demo_repointed = (Ok (VObj 1), demo_repointed) ∧
  read_accessor demo_world 3 "id" demo_repointed = (Ok (VNum 8), demo_repointed).
Proof.
  destruct (accessors_follow_the_wrapped_handle demo_world demo_created 3 1)
    as [Hset _].
  destruct (Hset demo_repointed ltac:(vm_compute; reflexivity)
              ltac:(vm_compute; reflexivity))
    as (Hunwrap & accs & e0 & fields & w & H0 & Hthis & Hl & Hread).
  split; [exact Hunwrap|].
  assert (Some (OReference e0 accs)
          = Some (OReference (VObj 0) {["id" := PkGetter "id"]})) as [= -> ->]
    by (etransitivity; [symmetry; exact H0|vm_compute; reflexivity]).
  assert (Some (OEntity fields w)
          = Some (OEntity (<["name" := VStr "Bob"]> {["id" := VNum 8]})
                    (with_reference (fresh_helper author_meta true) None)))
    as [= -> ->]
    by (etransitivity; [symmetry; exact Hl|vm_compute; reflexivity]).
  destruct (Hread demo_repointed _ _ Hthis Hl) as [Hpk _].
  exact (Hpk "id" "id" ltac:(vm_compute; reflexivity)).
Defined.


(** C3 as stated fails for a composite key: the message has the key as the
    template literal prints it, and the serialized key does not occur in
    it. *)
Lemma getEntity_message_lacks_the_serialized_key :
  getEntity order_world 2 order_state
  = (Throw (Error "Reference<Order> [object Object] not initialized"), order_state) ∧
  getSerializedPrimaryKey order_world (heap order_state) 0 = VStr "2~~~1" ∧
  ¬ contains "2~~~1" "Reference<Order> [object Object] not initialized".
Proof.
  split_and!; [vm_compute; reflexivity ..|].
  intros Hc.
  apply (contains_occurs (Ascii.ascii_of_nat 126)) in Hc; [|vm_compute; reflexivity].
  vm_compute in Hc. discriminate Hc.
Qed.

Lemma getEntity_initialized_or_throws_witness :
  getEntity demo_world 3 demo_created
  = (Throw (Error "Reference<Author> 7 not initialized"), demo_created).
Proof.
  destruct (getEntity_initialized_or_throws demo_world demo_created 3 0
              {["id" := PkGetter "id"]} {["id" := VNum 7]}
              (with_reference (fresh_helper author_meta false) (Some 3)))
    as [Hthrow _]; [vm_compute; reflexivity ..|].
  destruct (Hthrow eq_refl) as (message & Hget & _ & -> & _).
  exact Hget.
Defined.


(** C5.  The code at the failing input.  The wrapped entity is initialized
    and has a property under the empty name, whose value is ["nameless"];
    [load('')] returns the whole handle and not that value, since the guard
    [if (opts.prop)] takes the empty key for no key. *)
Lemma load_empty_key_returns_handle :
  isInitialized 1 odd_state = (Ok true, odd_state) ∧
  get_prop demo_world (heap odd_state) (VObj 0) "" = Ok (VStr "nameless") ∧
  load demo_world 1 (VStr "") odd_state = (Ok (VObj 0), odd_state) ∧
  fst (load demo_world 1 (VStr "") odd_state)
  ≠ get_prop demo_world (heap odd_state) (VObj 0) "".
Proof. split_and!; [vm_compute; reflexivity ..|vm_compute; discriminate]. Qed.

Lemma set_repoints_and_clears_marker_witness :
  ∃ l, unwrapReference demo_world (heap demo_created) (VObj 1) = Ok (VObj l) ∧
       heap demo_repointed !! 3
       = Some (OReference (VObj l) {["id" := PkGetter "id"]}) ∧
       fetches demo_repointed = fetches demo_created.
Proof.
  destruct (set_repoints_and_clears_marker demo_world demo_created 3 (VObj 1))
    as [Hset _].
  - apply (bool_decide_unpack _). vm_compute. exact I.
  - destruct (Hset demo_repointed ltac:(vm_compute; reflexivity))
      as (l & e0 & accs & fields & w & Hu & _ & _ & H0 & Hthis & _ & _ & _ & _ & _ & _ & _ & Hf).
    exists l. split; [exact Hu|]. split; [|exact Hf].
    assert (Some (OReference e0 accs)
            = Some (OReference (VObj 0) {["id" := PkGetter "id"]})) as [= -> ->]
      by (etransitivity; [symmetry; exact H0|vm_compute; reflexivity]).
    exact Hthis.
Defined.

(** C7 as stated fails: for [undefined] the composition yields [undefined],
    not [false]. *)
Lemma isReference_unwrapReference_undefined_not_false :
  (let? u := unwrapReference demo_world demo_heap VUndefined in
   isReference demo_world demo_heap u) = Ok VUndefined ∧
  (let? u := unwrapReference demo_world demo_heap VUndefined in
   isReference demo_world demo_heap u) ≠ Ok (VBool false).
Proof. split; [reflexivity|discriminate]. Qed.

Lemma unwrapReference_strips_wrapper_witness :
  wf_refs (heap demo_created) ∧ closed (heap demo_created) (VObj 3) = true ∧
  unwrapReference demo_world (heap demo_created) (VObj 3) = Ok (VObj 0) ∧
  isReference demo_world (heap demo_created) (VObj 0) = Ok (VBool false).
Proof.
  assert (wf_refs (heap demo_created)) as Hwf
    by (apply (bool_decide_unpack _); vm_compute; exact I).
  assert (closed (heap demo_created) (VObj 3) = true) as Hc by (vm_compute; reflexivity).
  split; [exact Hwf|]. split; [exact Hc|].
  destruct (unwrapReference_strips_wrapper demo_world _ _ Hwf Hc)
    as [(u & Hu & Hr & _ & _ & Hi) _].
  assert (u = VObj 0) as -> by (eapply Hr; [reflexivity|vm_compute; reflexivity]).
  split; [exact Hu|exact Hi].
Defined.

(** Outside the well-formed heaps the marker is not reliable: an object that
    is no [Reference] but has a truthy [__reference] of its own passes
    [isReference], and [unwrapReference] then calls an [unwrap] that it does
    not have. *)
Lemma unwrapReference_marked_object_throws :
  isReference demo_world marked_heap (VObj 0) = Ok (VBool true) ∧
  unwrapReference demo_world marked_heap (VObj 0)
  = Throw (TypeError "ref.unwrap is not a function") ∧
  ¬ wf_refs marked_heap.
Proof.
  split_and!; [vm_compute; reflexivity ..|].
  intros Hwf. by pose proof (Hwf 0 _ eq_refl).
Qed.

Lemma toJSON_delegates_witness :
  toJSON demo_world 3 [] demo_created
  = handle_serialization demo_world (VObj 0) [] demo_created.
Proof.
  apply (toJSON_delegates demo_world demo_created 3 (VObj 0)
           {["id" := PkGetter "id"]} []).
  vm_compute; reflexivity.
Defined.

(** C9 as stated fails: the answer for [null] is [null], not [false]. *)
Lemma isReference_null_not_false :
  isReference demo_world demo_heap VNull = Ok VNull ∧
  isReference demo_world demo_heap VNull ≠ Ok (VBool false).
Proof. split; [reflexivity|discriminate]. Qed.

Lemma isReference_absent_value_witness :
  isReference demo_world demo_heap (VNum 0) = Ok (VNum 0).
Proof.
  destruct (isReference_absent_value demo_world demo_heap)
    as (_ & _ & _ & _ & Hfalsy & _).
  destruct (Hfalsy (VNum 0) ltac:(reflexivity)) as [H0 _]. exact H0.
Defined.

Lemma rel_passes_or_builds_witness :
  rel demo_world "Author" VNull demo_state = (Ok VNull, demo_state) ∧
  rel demo_world "Author" VUndefined demo_state = (Ok VUndefined, demo_state) ∧
  rel demo_world "Author" (VObj 0) demo_state = (Ok (VObj 0), demo_state) ∧
  ∃ s', rel demo_world "Author" (VNum 9) demo_state = (Ok (VObj 3), s') ∧
        factory_calls s' = 2.
Proof.
  destruct (rel_passes_or_builds demo_world demo_state "Author" (VObj 0))
    as (Hnull & Hundef & Hentity & _).
  destruct (rel_passes_or_builds demo_world demo_state "Author" (VNum 9))
    as (_ & _ & _ & _ & Hbare).
  split; [exact Hnull|]. split; [exact Hundef|]. split.
  - apply (Hentity 0 {["id" := VNum 7]} (fresh_helper author_meta false) eq_refl).
    vm_compute; reflexivity.
  - destruct (Hbare ltac:(discriminate) ltac:(discriminate) ltac:(reflexivity))
      as (_ & _ & Hbuild).
    destruct (Hbuild 3
                (snd (createReference demo_world "Author" (VNum 9) false false None
                        demo_heap))
                {["id" := VNum 9]} (fresh_helper author_meta false)
                ltac:(vm_compute; reflexivity) ltac:(vm_compute; reflexivity))
      as (s' & w' & Hrel & _ & _ & _ & _ & _ & _ & _ & Hf).
    exists s'. split; [exact Hrel|exact Hf].
Defined.

(** * Further lemmas *)

Section MoreFacts.

Variable W : Collaborators.

(** ** Computations that call no collaborator *)

Lemma silent_bind {A B} (m : M A) (k : A → M B) :
  silent m → (∀ a, silent (k a)) → silent (bind m k).
Proof.
  intros Hm Hk s. unfold bind. specialize (Hm s).
  destruct (m s) as [[a|e] s1]; simpl in *; [|done]. by rewrite Hk.
Qed.

Lemma pure_read_silent {A} (m : M A) : pure_read m → silent m.
Proof. intros Hm s. by rewrite Hm. Qed.

Lemma pure_read_bind {A B} (m : M A) (k : A → M B) :
  pure_read m → (∀ a, pure_read (k a)) → pure_read (bind m k).
Proof.
  intros Hm Hk s. unfold bind. specialize (Hm s).
  destruct (m s) as [[a|e] s1]; simpl in *; subst; [|done]. apply Hk.
Qed.

Lemma pure_read_read {A} (f : gmap loc obj → result A) : pure_read (read f).
Proof. by intros s. Qed.

Lemma pure_read_ret {A} (a : A) : pure_read (ret a).
Proof. by intros s. Qed.

Lemma pure_read_throw {A} e : pure_read (@throw A e).
Proof. by intros s. Qed.

Lemma silent_assign_entity this e : silent (assign_entity this e).
Proof.
  intros s. unfold assign_entity, store. by destruct (heap s !! this) as [[]|].
Qed.

Lemma silent_update_wrapped l f : silent (update_wrapped l f).
Proof.
  intros s. unfold update_wrapped, store. by destruct (heap s !! l) as [[]|].
Qed.

Lemma silent_defineProperty this k g : silent (defineProperty this k g).
Proof.
  intros s. unfold defineProperty, store.
  destruct (heap s !! this) as [[e accs| |]|]; try done.
  case_bool_decide; [done|]. by destruct (accs !! k).
Qed.

Lemma silent_alloc o : silent (alloc o).
Proof. by intros s. Qed.

Lemma silent_forEach {A} (xs : list A) (f : A → M unit) :
  (∀ x, silent (f x)) → silent (forEach xs f).
Proof.
  intros Hf. induction xs as [|x xs IH]; simpl.
  - by intros s.
  - by apply silent_bind.
Qed.

Ltac silent_steps :=
  repeat lazymatch goal with
    | |- silent (bind _ _) => apply silent_bind; [|intros ?]
    | |- silent (read _) => apply pure_read_silent, pure_read_read
    | |- silent (ret _) => apply pure_read_silent, pure_read_ret
    | |- silent (throw _) => apply pure_read_silent, pure_read_throw
    | |- silent (assign_entity _ _) => apply silent_assign_entity
    | |- silent (alloc _) => apply silent_alloc
    | |- silent (update_wrapped _ _) => apply silent_update_wrapped
    | |- silent (assign_reference _ _) => apply silent_update_wrapped
    | |- silent (defineProperty _ _ _) => apply silent_defineProperty
    | |- silent (forEach _ _) => apply silent_forEach; intros ?
    | |- silent (if ?b then _ else _) => destruct b
    | |- silent (match ?o with Some _ => _ | None => _ end) => destruct o
    end.

Lemma silent_set this v : silent (set W this v).
Proof. unfold set. silent_steps. Qed.

Lemma silent_new_Reference entity : silent (new_Reference W entity).
Proof. unfold new_Reference. silent_steps. apply silent_set. Qed.

Lemma silent_toReference l : silent (toReference W l).
Proof. unfold toReference. silent_steps. apply silent_new_Reference. Qed.

Lemma silent_create v : silent (create W v).
Proof.
  unfold create, unwrap. silent_steps; [apply silent_toReference|apply silent_set].
Qed.

Lemma silent_wrapReference v b : silent (wrapReference W v b).
Proof. unfold wrapReference. silent_steps. apply silent_create. Qed.

Lemma pure_read_isInitialized this : pure_read (isInitialized this).
Proof.
  unfold isInitialized.
  repeat first [apply pure_read_bind; [|intros ?] | apply pure_read_read
               | apply pure_read_ret].
Qed.

Lemma pure_read_getEntity this : pure_read (getEntity W this).
Proof.
  unfold getEntity. apply pure_read_bind; [apply pure_read_isInitialized|].
  intros []; simpl;
  repeat first [apply pure_read_bind; [|intros ?] | apply pure_read_read
               | apply pure_read_ret | apply pure_read_throw].
Qed.

Lemma pure_read_getProperty this prop : pure_read (getProperty W this prop).
Proof.
  unfold getProperty. apply pure_read_bind; [apply pure_read_getEntity|].
  intros ?. apply pure_read_read.
Qed.

(** ** [toReference] and [create], step by step *)

Lemma helper_at_Ok_entity n (h : gmap loc obj) v l :
  helper_at n h v = Ok l → isEntity h (VObj l) = true.
Proof.
  revert v. induction n as [|n IH]; intros [| | | | |l0]; simpl; try discriminate;
    destruct (h !! l0) as [[e accs|fields w|fields]|] eqn:E; try discriminate;
    intros Hl; simplify_eq; try (by rewrite E); eauto.
Qed.

Lemma update_wrapped_wf_refs l f : preserves wf_refs (update_wrapped l f).
Proof.
  intros s Hwf. unfold update_wrapped, store.
  destruct (heap s !! l) as [[|fields w|]|] eqn:Hl; try done. simpl.
  apply wf_refs_insert; [done|by eapply kinds_kept_insert|].
  by pose proof (Hwf _ _ Hl).
Qed.

Lemma toReference_marked s l fields w r :
  heap s !! l = Some (OEntity fields w) → __reference w = Some r →
  toReference W l s = (Ok r, s).
Proof.
  intros Hl Hw. unfold toReference.
  rewrite (bind_Ok _ _ s w s); [by rewrite Hw|].
  apply read_Ok. unfold wrapped. by rewrite Hl.
Qed.

Lemma toReference_fresh s l fields w :
  wf_refs (heap s) →
  heap s !! l = Some (OEntity fields w) → __reference w = None →
  meta_ok (__meta w) = true →
  toReference W l s
  = (Ok (fresh (dom (heap s))),
     {| heap := <[l := OEntity fields (with_reference w (Some (fresh (dom (heap s)))))]>
                  (<[fresh (dom (heap s)) := OReference (VObj l) (accessors_of (__meta w))]>
                     (heap s));
        trace := trace s |}).
Proof.
  intros Hwf Hl Hw Hmeta.
  set (this := fresh (dom (heap s))).
  assert (heap s !! this = None) as Hfresh by apply fresh_lookup_None.
  assert (this ≠ l) as Hne by (intros Heq; rewrite Heq, Hl in Hfresh; done).
  unfold toReference. rewrite (bind_Ok _ _ s w s).
  2:{ apply read_Ok. unfold wrapped. by rewrite Hl. }
  rewrite Hw. rewrite (bind_Ok _ _ _ _ _ (new_Reference_Ok W s l fields w Hwf Hl Hmeta)).
  fold this. unfold bind, assign_reference, update_wrapped, store, ret. simpl.
  rewrite lookup_insert_ne by done. rewrite lookup_insert_eq. simpl.
  f_equal. f_equal. apply map_eq. intros i.
  destruct (decide (l = i)) as [<-|?]; [by rewrite !lookup_insert_eq|].
  rewrite !(lookup_insert_ne _ l) by done.
  destruct (decide (this = i)) as [<-|?]; [by rewrite !lookup_insert_eq|].
  by rewrite !lookup_insert_ne.
Qed.

Lemma toReference_wf_refs l : preserves wf_refs (toReference W l).
Proof.
  intros s Hwf. unfold toReference, bind at 1, read.
  destruct (wrapped (heap s) l) as [w|] eqn:Hw; [|done]. simpl.
  destruct (__reference w); [done|].
  assert (closed (heap s) (VObj l) = true) as Hc.
  { unfold wrapped in Hw. simpl. apply bool_decide_eq_true.
    destruct (heap s !! l); [eauto|done]. }
  pose proof (new_Reference_wf_refs W (VObj l) s Hwf Hc) as Hwf1.
  unfold bind at 1. destruct (new_Reference W (VObj l) s) as [[r|e] s1]; [|done].
  simpl in Hwf1. apply preserves_apply; [|done].
  apply preserves_bind; [apply update_wrapped_wf_refs|]. intros ?. apply preserves_ret.
Qed.

Lemma create_wf_refs v : preserves wf_refs (create W v).
Proof.
  unfold create, unwrap.
  repeat lazymatch goal with
    | |- preserves _ (bind _ _) => apply preserves_bind; [|intros ?]
    | |- preserves _ (read _) => apply preserves_read
    | |- preserves _ (ret _) => apply preserves_ret
    | |- preserves _ (toReference _ _) => apply toReference_wf_refs
    | |- preserves _ (set _ _ _) => apply set_wf_refs
    | |- preserves _ (if ?b then _ else _) => destruct b
    end.
Qed.

Lemma wrapReference_wf_refs v b : preserves wf_refs (wrapReference W v b).
Proof.
  unfold wrapReference. destruct (truthy v && b); [|apply preserves_ret].
  apply preserves_bind; [apply preserves_read|]. intros r.
  destruct (negb (truthy r)); [apply create_wf_refs|apply preserves_ret].
Qed.

(** [create] when the marker names a [Reference] that wraps the handle. *)
Lemma create_marked s v l fields w r :
  wf_refs (heap s) →
  heap s !! l = Some (OEntity fields w) → __reference w = Some r →
  wraps (heap s) r l →
  v = VObj l ∨ (∃ r0, v = VObj r0 ∧ wraps (heap s) r0 l) →
  create W v s = (Ok (VObj r), s).
Proof.
  intros Hwf Hl Hw [accs Hr] Hv.
  assert (isEntity (heap s) (VObj l) = true) as He by (simpl; by rewrite Hl).
  destruct (unwrapReference_persisted W _ v l Hwf He Hv) as [Hu Hh].
  unfold create.
  rewrite (bind_Ok _ _ s (VObj l) s) by by apply read_Ok.
  rewrite (bind_Ok _ _ s l s) by by apply read_Ok.
  rewrite (bind_Ok _ _ _ _ _ (toReference_marked s l fields w r Hl Hw)).
  rewrite (bind_Ok _ _ s (VObj l) s).
  2:{ unfold unwrap. apply read_Ok. unfold this_entity. by rewrite Hr. }
  unfold strict_eq. by rewrite bool_decide_eq_true_2.
Qed.

(** [create] when the handle has no marker. *)
Lemma create_unmarked s v l fields w :
  wf_refs (heap s) →
  heap s !! l = Some (OEntity fields w) → __reference w = None →
  meta_ok (__meta w) = true →
  v = VObj l ∨ (∃ r0, v = VObj r0 ∧ wraps (heap s) r0 l) →
  create W v s
  = (Ok (VObj (fresh (dom (heap s)))),
     {| heap := <[l := OEntity fields (with_reference w (Some (fresh (dom (heap s)))))]>
                  (<[fresh (dom (heap s)) := OReference (VObj l) (accessors_of (__meta w))]>
                     (heap s));
        trace := trace s |}).
Proof.
  intros Hwf Hl Hw Hmeta Hv.
  assert (isEntity (heap s) (VObj l) = true) as He by (simpl; by rewrite Hl).
  destruct (unwrapReference_persisted W _ v l Hwf He Hv) as [Hu Hh].
  set (this := fresh (dom (heap s))).
  assert (heap s !! this = None) as Hfresh by apply fresh_lookup_None.
  assert (this ≠ l) as Hne by (intros Heq; rewrite Heq, Hl in Hfresh; done).
  unfold create.
  rewrite (bind_Ok _ _ s (VObj l) s) by by apply read_Ok.
  rewrite (bind_Ok _ _ s l s) by by apply read_Ok.
  rewrite (bind_Ok _ _ _ _ _ (toReference_fresh s l fields w Hwf Hl Hw Hmeta)).
  fold this.
  match goal with
  | |- bind _ _ ?s1 = _ => rewrite (bind_Ok _ _ s1 (VObj l) s1)
  end.
  2:{ unfold unwrap. apply read_Ok. unfold this_entity. simpl.
      rewrite lookup_insert_ne by done. by rewrite lookup_insert_eq. }
  unfold strict_eq. by rewrite bool_decide_eq_true_2.
Qed.

(** [create] when the marker names a [Reference] that wraps something
    else. *)
Lemma create_repointed s v l fields w r e accs :
  wf_refs (heap s) →
  heap s !! l = Some (OEntity fields w) → __reference w = Some r →
  heap s !! r = Some (OReference e accs) → e ≠ VObj l →
  v = VObj l ∨ (∃ r0, v = VObj r0 ∧ wraps (heap s) r0 l) →
  create W v s
  = (Ok (VObj r),
     {| heap := <[l := OEntity fields (with_reference w None)]>
                  (<[r := OReference (VObj l) accs]> (heap s));
        trace := trace s |}).
Proof.
  intros Hwf Hl Hw Hr Hne Hv.
  assert (isEntity (heap s) (VObj l) = true) as He by (simpl; by rewrite Hl).
  destruct (unwrapReference_persisted W _ v l Hwf He Hv) as [Hu Hh].
  unfold create.
  rewrite (bind_Ok _ _ s (VObj l) s) by by apply read_Ok.
  rewrite (bind_Ok _ _ s l s) by by apply read_Ok.
  rewrite (bind_Ok _ _ _ _ _ (toReference_marked s l fields w r Hl Hw)).
  rewrite (bind_Ok _ _ s e s).
  2:{ unfold unwrap. apply read_Ok. unfold this_entity. by rewrite Hr. }
  unfold strict_eq. rewrite bool_decide_eq_false_2 by congruence. simpl.
  by rewrite (bind_Ok _ _ _ _ _
               (set_Ok W r (VObj l) s e accs l fields w
                  (unwrapReference_entity W _ _ Hwf He) Hr Hl)).
Qed.

(** ** More about [set], [getEntity] and [load] *)

Lemma unwrapReference_primitive (h : gmap loc obj) v :
  (∀ l, v ≠ VObj l) → unwrapReference W h v = Ok v.
Proof.
  intros Hv. unfold unwrapReference. destruct (truthy v) eqn:Ht.
  - by rewrite isReference_primitive.
  - rewrite isReference_falsy by done. simpl. by rewrite Ht.
Qed.

Lemma helper_primitive (h : gmap loc obj) v :
  (∀ l, v ≠ VObj l) →
  helper h v = Throw (TypeError "Cannot read properties of undefined").
Proof.
  intros Hv. unfold helper. destruct v; try (by destruct (size h)).
  by destruct (Hv l).
Qed.

Lemma getEntity_of_initialized s this :
  isInitialized this s = (Ok true, s) → getEntity W this s = unwrap this s.
Proof. intros Hi. unfold getEntity. by rewrite (bind_Ok _ _ _ _ _ Hi). Qed.

Lemma load_Ok_result s this options v s1 :
  load W this options s = (Ok v, s1) →
  load_result W options this s1 = (Ok v, s1).
Proof.
  intros Hload. destruct (isInitialized this s) as [[[]|x] s0] eqn:Hi.
  - assert (s0 = s) as ->
      by (pose proof (isInitialized_state this s) as Hst; by rewrite Hi in Hst).
    rewrite load_initialized in Hload by done.
    pose proof (load_result_state W options this s) as Hst.
    rewrite Hload in Hst. simpl in Hst. by subst s1.
  - assert (s0 = s) as ->
      by (pose proof (isInitialized_state this s) as Hst; by rewrite Hi in Hst).
    by destruct (load_uninitialized_inv W _ _ _ _ _ Hi Hload)
      as (? & ? & ? & ? & ? & _ & _ & ?).
  - unfold load in Hload. by rewrite (bind_Throw _ _ _ _ _ Hi) in Hload.
Qed.

Lemma bind_assoc {A B C} (m : M A) (k : A → M B) (K : B → M C) s :
  bind (bind m k) K s = bind m (λ a, bind (k a) K) s.
Proof. unfold bind. by destruct (m s) as [[a|e] s1]. Qed.

Lemma bind_read {A B} (f : gmap loc obj → result A) (k : A → M B) s :
  bind (read f) k s
  = match f (heap s) with Ok a => k a s | Throw e => (Throw e, s) end.
Proof. unfold bind, read. by destruct (f (heap s)). Qed.

Lemma bind_log {B} ev (k : unit → M B) s :
  bind (log ev) k s = k tt {| heap := heap s; trace := trace s ++ [ev] |}.
Proof. done. Qed.

Lemma bind_call {A B} (f : gmap loc obj → result A * gmap loc obj)
    (k : A → M B) s :
  bind (call f) k s
  = match f (heap s) with
    | (Ok a, h) => k a {| heap := h; trace := trace s |}
    | (Throw e, h) => (Throw e, {| heap := h; trace := trace s |})
    end.
Proof. unfold bind, call. by destruct (f (heap s)) as [[a|e] h]. Qed.

(** The first act of [load] on a handle that is not initialized: the
    arguments are read, and the delegate is called once. *)
Lemma load_uninitialized s this options :
  isInitialized this s = (Ok false, s) →
  load W this options s
  = let opts := if typeof_object options then OptsGiven options
                else OptsProp options in
    match this_entity (heap s) this with
    | Throw x => (Throw x, s)
    | Ok e =>
      match helper (heap s) e with
      | Throw x => (Throw x, s)
      | Ok l =>
        match opts_optional W (heap s) opts "populate" with
        | Throw x => (Throw x, s)
        | Ok p =>
          match opts_optional W (heap s) opts "lockMode" with
          | Throw x => (Throw x, s)
          | Ok m =>
            match opts_optional W (heap s) opts "connectionType" with
            | Throw x => (Throw x, s)
            | Ok c =>
              let tr := (trace s ++ [EvInit l VUndefined p m c])%list in
              match init W l VUndefined p m c (heap s) with
              | (Throw x, h1) => (Throw x, {| heap := h1; trace := tr |})
              | (Ok _, h1) =>
                  load_result W options this {| heap := h1; trace := tr |}
              end
            end
          end
        end
      end
    end.
Proof.
  intros Hi. unfold load. rewrite (bind_Ok _ _ _ _ _ Hi). simpl.
  rewrite !bind_assoc, bind_read.
  destruct (this_entity (heap s) this) as [e|]; [|done].
  rewrite !bind_assoc, bind_read. destruct (helper (heap s) e) as [l|]; [|done].
  rewrite !bind_assoc, bind_read.
  destruct (opts_optional W (heap s) _ "populate") as [p|]; [|done].
  rewrite !bind_assoc, bind_read.
  destruct (opts_optional W (heap s) _ "lockMode") as [m|]; [|done].
  rewrite !bind_assoc, bind_read.
  destruct (opts_optional W (heap s) _ "connectionType") as [c|]; [|done].
  rewrite !bind_assoc, bind_log, bind_call. simpl.
  by destruct (init W l VUndefined p m c (heap s)) as [[[]|x] h1].
Qed.

(** The trace after a [load]: unchanged, or longer by the one call of the
    delegate, which happens only for a handle that is not initialized. *)
Lemma load_trace s this options :
  trace (snd (load W this options s)) = trace s ∨
  (∃ ev, is_init ev = true ∧
         trace (snd (load W this options s)) = (trace s ++ [ev])%list ∧
         isInitialized this s = (Ok false, s)).
Proof.
  destruct (isInitialized this s) as [[[]|x] s0] eqn:Hi;
    assert (s0 = s) as ->
      by (pose proof (isInitialized_state this s) as Hst; by rewrite Hi in Hst).
  - left. rewrite load_initialized by done. by rewrite load_result_state.
  - rewrite load_uninitialized by done. simpl.
    destruct (this_entity (heap s) this) as [e|]; [|by left].
    destruct (helper (heap s) e) as [l|]; [|by left].
    destruct (opts_optional W (heap s) _ "populate") as [p|]; [|by left].
    destruct (opts_optional W (heap s) _ "lockMode") as [m|]; [|by left].
    destruct (opts_optional W (heap s) _ "connectionType") as [c|]; [|by left].
    right. exists (EvInit l VUndefined p m c). split; [done|]. split; [|done].
    destruct (init W l VUndefined p m c (heap s)) as [[[]|x] h1]; [|done].
    by rewrite load_result_state.
  - left. unfold load. by rewrite (bind_Throw _ _ _ _ _ Hi).
Qed.

(** ** The accessors that the constructor installs *)

Lemma accessors_of_pk meta k :
  meta_ok meta = true → k ∈ primaryKeys meta →
  accessors_of meta !! k = Some (PkGetter k).
Proof.
  intros Hmeta Hk. apply andb_true_iff in Hmeta as [_ Hspk]. unfold accessors_of.
  assert (pk_accessors ∅ (primaryKeys meta) !! k = Some (PkGetter k)) as Hpks
    by (rewrite pk_accessors_lookup; by rewrite decide_True).
  destruct (serializedPrimaryKey meta) as [spk|]; [|done].
  destruct (has_serialized_accessor meta spk); [|done].
  apply andb_true_iff in Hspk as [Hn _]. apply bool_decide_eq_true in Hn.
  rewrite lookup_insert_ne; [done|]. by intros ->.
Qed.

Lemma accessors_of_serialized meta spk :
  serializedPrimaryKey meta = Some spk → has_serialized_accessor meta spk = true →
  accessors_of meta !! spk = Some SerializedPkGetter.
Proof. intros Hs Hh. unfold accessors_of. rewrite Hs, Hh. apply lookup_insert_eq. Qed.

Lemma accessors_of_other meta k :
  k ∉ primaryKeys meta → serializedPrimaryKey meta ≠ Some k →
  accessors_of meta !! k = None.
Proof.
  intros Hk Hs. unfold accessors_of.
  assert (pk_accessors ∅ (primaryKeys meta) !! k = None) as Hpks
    by (rewrite pk_accessors_lookup; by rewrite decide_False).
  destruct (serializedPrimaryKey meta) as [spk|]; [|done].
  destruct (has_serialized_accessor meta spk); [|done].
  rewrite lookup_insert_ne; [done|]. by intros ->.
Qed.

Lemma get_prop_no_accessor (h : gmap loc obj) this e accs k :
  h !! this = Some (OReference e accs) → accs !! k = None → k ∉ reserved →
  get_prop W h (VObj this) k = Ok VUndefined.
Proof.
  intros Hthis Hk Hres. unfold reserved in Hres. simpl in Hres.
  apply not_elem_of_cons in Hres as [H1 Hres].
  apply not_elem_of_cons in Hres as [H2 Hres].
  apply not_elem_of_cons in Hres as [H3 Hres].
  unfold get_prop. destruct (size h); simpl; rewrite Hthis, Hk;
    rewrite (bool_decide_eq_false_2 (k = "entity" ∨ k = "$")) by (by intros [?|?]);
    rewrite (bool_decide_eq_false_2 (k = "__reference")) by done;
    by rewrite (bool_decide_eq_false_2 (k ∈ function_members)) by done.
Qed.

(** ** The factory functions *)


Lemma helper_toReference_marked s v l fields w r :
  helper (heap s) v = Ok l →
  heap s !! l = Some (OEntity fields w) → __reference w = Some r →
  helper_toReference W v s = (Ok (VObj r), s).
Proof.
  intros Hh Hl Hw. unfold helper_toReference.
  rewrite (bind_Ok _ _ s l s) by by apply read_Ok.
  by rewrite (bind_Ok _ _ _ _ _ (toReference_marked s l fields w r Hl Hw)).
Qed.

Lemma helper_toReference_fresh s v l fields w :
  wf_refs (heap s) → helper (heap s) v = Ok l →
  heap s !! l = Some (OEntity fields w) → __reference w = None →
  meta_ok (__meta w) = true →
  helper_toReference W v s
  = (Ok (VObj (fresh (dom (heap s)))),
     {| heap := <[l := OEntity fields (with_reference w (Some (fresh (dom (heap s)))))]>
                  (<[fresh (dom (heap s)) := OReference (VObj l) (accessors_of (__meta w))]>
                     (heap s));
        trace := trace s |}).
Proof.
  intros Hwf Hh Hl Hw Hmeta. unfold helper_toReference.
  rewrite (bind_Ok _ _ s l s) by by apply read_Ok.
  by rewrite (bind_Ok _ _ _ _ _ (toReference_fresh s l fields w Hwf Hl Hw Hmeta)).
Qed.

Lemma silent_helper_toReference v : silent (helper_toReference W v).
Proof. unfold helper_toReference. silent_steps. apply silent_toReference. Qed.

(** The constructor up to the accessors of the primary keys. *)
Lemma new_Reference_keys s l fields w :
  wf_refs (heap s) →
  heap s !! l = Some (OEntity fields w) →
  NoDup (primaryKeys (__meta w)) →
  Forall (λ k, k ∉ reserved) (primaryKeys (__meta w)) →
  new_Reference W (VObj l) s
  = (let this := fresh (dom (heap s)) in
     let* _ := match serializedPrimaryKey (__meta w) with
               | Some spk =>
                   if truthy (VStr spk)
                      && negb (bool_decide (primaryKeys (__meta w) !! 0 = Some spk))
                   then defineProperty this spk SerializedPkGetter
                   else ret tt
               | None => ret tt
               end in
     ret this)
      {| heap := <[fresh (dom (heap s)) :=
                     OReference (VObj l) (pk_accessors ∅ (primaryKeys (__meta w)))]>
                   (<[l := OEntity fields (with_reference w None)]> (heap s));
         trace := trace s |}.
Proof.
  intros Hwf Hl Hnd Hres. unfold new_Reference.
  set (this := fresh (dom (heap s))).
  assert (heap s !! this = None) as Hfresh by apply fresh_lookup_None.
  assert (this ≠ l) as Hne by (intros Heq; rewrite Heq, Hl in Hfresh; done).
  set (s0 := {| heap := <[this := OReference (VObj l) ∅]> (heap s); trace := trace s |}).
  rewrite (bind_Ok _ _ s this s0) by done.
  assert (heap s0 !! l = Some (OEntity fields w)) as Hl0
    by (simpl; by rewrite lookup_insert_ne).
  assert (unwrapReference W (heap s0) (VObj l) = Ok (VObj l)) as Hu.
  { simpl. rewrite unwrapReference_alloc; try done.
    - apply unwrapReference_entity; [done|]. simpl. by rewrite Hl.
    - simpl. apply bool_decide_eq_true. eauto. }
  rewrite (bind_Ok _ _ s0 tt _
             (set_Ok W this _ s0 _ _ _ _ _ Hu (lookup_insert_eq _ _ _) Hl0)).
  simpl. rewrite insert_insert_eq.
  set (h1 := <[l := OEntity fields (with_reference w None)]>
               (<[this := OReference (VObj l) ∅]> (heap s))).
  assert (h1 !! this = Some (OReference (VObj l) ∅)) as Hthis1.
  { unfold h1. rewrite lookup_insert_ne by done. apply lookup_insert_eq. }
  assert (h1 !! l = Some (OEntity fields (with_reference w None))) as Hl1
    by apply lookup_insert_eq.
  rewrite bind_read. unfold this_entity. simpl. rewrite Hthis1.
  rewrite bind_read. simpl. rewrite (helper_entity _ _ _ _ Hl1).
  rewrite bind_read. unfold wrapped. simpl. rewrite Hl1. simpl.
  assert (∀ k, k ∈ primaryKeys (__meta w) →
               (k ∉ reserved) ∧ (∅ : gmap string getter) !! k = None) as Hkeys.
  { intros k Hk. split; [|done]. by eapply Forall_forall in Hres. }
  rewrite (bind_Ok _ _ _ tt _
             (forEach_defineProperty_Ok this (primaryKeys (__meta w))
                {| heap := h1; trace := trace s |} (VObj l) ∅ Hthis1 Hnd Hkeys)).
  simpl.
  assert (<[this := OReference (VObj l) (pk_accessors ∅ (primaryKeys (__meta w)))]>
            (<[l := OEntity fields (with_reference w None)]> (heap s))
          = <[this := OReference (VObj l) (pk_accessors ∅ (primaryKeys (__meta w)))]> h1)
    as ->; [|done].
  unfold h1. apply map_eq. intros i.
  destruct (decide (this = i)) as [<-|?]; [by rewrite !lookup_insert_eq|].
  rewrite !(lookup_insert_ne _ this) by done.
  destruct (decide (l = i)) as [<-|?]; [by rewrite !lookup_insert_eq|].
  by rewrite !lookup_insert_ne.
Qed.

End MoreFacts.

(** * Further properties *)

Section Further.

Variable W : Collaborators.

(** X1.  [create], [wrapReference], [set] and the constructor call no
    collaborator, whatever their arguments and whether they return or throw:
    the trace, and with it the number of fetches and of factory calls, is
    what it was.  [isInitialized], [getEntity] and [getProperty] change
    nothing at all. *)
Theorem wrapping_calls_no_collaborator (s : state) :
  (∀ v, trace (snd (create W v s)) = trace s) ∧
  (∀ v wrappedReference,
     trace (snd (wrapReference W v wrappedReference s)) = trace s) ∧
  (∀ this v, trace (snd (set W this v s)) = trace s) ∧
  (∀ entity, trace (snd (new_Reference W entity s)) = trace s) ∧
  (∀ v, fetches (snd (create W v s)) = fetches s ∧
        factory_calls (snd (create W v s)) = factory_calls s) ∧
  (∀ this, snd (isInitialized this s) = s) ∧
  (∀ this, snd (getEntity W this s) = s) ∧
  (∀ this prop, snd (getProperty W this prop s) = s).
Proof.
  split_and!.
  - intros v. apply silent_create.
  - intros v b. apply silent_wrapReference.
  - intros this v. apply silent_set.
  - intros entity. apply silent_new_Reference.
  - intros v. unfold fetches, factory_calls. by rewrite silent_create.
  - intros this. apply pure_read_isInitialized.
  - intros this. apply pure_read_getEntity.
  - intros this prop. apply pure_read_getProperty.
Qed.

(** X2.  [create] is stable on a handle whose marker is in order (there is
    none, or it names a [Reference] that wraps the handle): it returns a
    [Reference] that wraps the handle and that the marker names afterwards,
    and every further [create], on the raw handle, on that [Reference] or on
    the first argument again, returns the very same [Reference] and changes
    nothing. *)
Theorem create_is_stable (s : state) (v : value) (l : loc) :
  wf_refs (heap s) → handle_ok (heap s) l = true → canonical (heap s) l →
  v = VObj l ∨ (∃ r0, v = VObj r0 ∧ wraps (heap s) r0 l) →
  ∃ ref s1,
    create W v s = (Ok (VObj ref), s1) ∧
    wraps (heap s1) ref l ∧
    (∃ fields w, heap s1 !! l = Some (OEntity fields w) ∧
                 __reference w = Some ref) ∧
    create W (VObj l) s1 = (Ok (VObj ref), s1) ∧
    create W (VObj ref) s1 = (Ok (VObj ref), s1) ∧
    create W v s1 = (Ok (VObj ref), s1).
Proof.
  intros Hwf Hok (fields & w & Hl & Hcan) Hv.
  destruct (handle_ok_inv _ _ Hok) as (fields' & w' & Hl' & Hmeta & _).
  rewrite Hl in Hl'. injection Hl' as <- <-.
  destruct (__reference w) as [r|] eqn:Hw.
  - pose proof (Hcan r eq_refl) as Hr.
    exists r, s. split_and!; try done.
    + by eapply create_marked.
    + by exists fields, w.
    + eapply create_marked; try done. by left.
    + eapply create_marked; try done. right. eauto.
    + by eapply create_marked.
  - pose proof (create_unmarked W s v l fields w Hwf Hl Hw Hmeta Hv) as Hc.
    set (this := fresh (dom (heap s))) in *.
    assert (heap s !! this = None) as Hfresh by apply fresh_lookup_None.
    assert (this ≠ l) as Hne by (intros Heq; rewrite Heq, Hl in Hfresh; done).
    pose proof (create_wf_refs W v s Hwf) as Hwf1. rewrite Hc in Hwf1.
    eexists this, _. split; [exact Hc|]. simpl in *.
    set (h1 := <[l := OEntity fields (with_reference w (Some this))]>
                 (<[this := OReference (VObj l) (accessors_of (__meta w))]> (heap s)))
      in *.
    assert (h1 !! l = Some (OEntity fields (with_reference w (Some this)))) as Hl1
      by apply lookup_insert_eq.
    assert (wraps h1 this l) as Hthis1.
    { eexists. unfold h1. rewrite lookup_insert_ne by done. apply lookup_insert_eq. }
    split_and!; try done.
    + by eexists _, _.
    + eapply (create_marked W {| heap := h1; trace := trace s |}); try done. by left.
    + eapply (create_marked W {| heap := h1; trace := trace s |}); try done.
      right. eauto.
    + eapply (create_marked W {| heap := h1; trace := trace s |}); try done.
      destruct Hv as [->|(r0 & -> & a0 & Hr0)]; [by left|right].
      exists r0. split; [done|]. exists a0. simpl. unfold h1.
      rewrite !lookup_insert_ne; try done.
      * intros ->. by rewrite Hfresh in Hr0.
      * intros ->. by rewrite Hl in Hr0.
Qed.

(** X3.  When the [Reference] named by the marker of a handle has been
    pointed at something else, [create] on the handle points it back and
    returns it, but deletes the marker; the next [create] therefore builds a
    second, new [Reference].  Both wrap the handle. *)
Theorem create_after_repointing (s : state) (l r : loc) fields w e accs :
  wf_refs (heap s) →
  heap s !! l = Some (OEntity fields w) → meta_ok (__meta w) = true →
  __reference w = Some r →
  heap s !! r = Some (OReference e accs) → e ≠ VObj l →
  ∃ s1 r2 s2,
    create W (VObj l) s = (Ok (VObj r), s1) ∧
    wraps (heap s1) r l ∧
    heap s1 !! l = Some (OEntity fields (with_reference w None)) ∧
    create W (VObj l) s1 = (Ok (VObj r2), s2) ∧
    r2 ≠ r ∧ heap s1 !! r2 = None ∧
    wraps (heap s2) r2 l ∧ wraps (heap s2) r l.
Proof.
  intros Hwf Hl Hmeta Hw Hr Hne.
  pose proof (create_repointed W s (VObj l) l fields w r e accs Hwf Hl Hw Hr Hne
                (or_introl eq_refl)) as Hc.
  pose proof (create_wf_refs W (VObj l) s Hwf) as Hwf1. rewrite Hc in Hwf1.
  simpl in Hwf1.
  assert (l ≠ r) as Hlr by (intros ->; rewrite Hr in Hl; done).
  set (h1 := <[l := OEntity fields (with_reference w None)]>
               (<[r := OReference (VObj l) accs]> (heap s))) in *.
  assert (h1 !! l = Some (OEntity fields (with_reference w None))) as Hl1
    by apply lookup_insert_eq.
  assert (h1 !! r = Some (OReference (VObj l) accs)) as Hr1.
  { unfold h1. rewrite lookup_insert_ne by done. apply lookup_insert_eq. }
  set (s1 := {| heap := h1; trace := trace s |}).
  pose proof (create_unmarked W s1 (VObj l) l fields (with_reference w None)
                Hwf1 Hl1 eq_refl Hmeta (or_introl eq_refl)) as Hc2.
  set (r2 := fresh (dom (heap s1))) in *.
  assert (h1 !! r2 = None) as Hfresh by apply fresh_lookup_None.
  assert (r2 ≠ r) as Hne2 by (intros Heq; rewrite Heq, Hr1 in Hfresh; done).
  assert (r2 ≠ l) as Hne3 by (intros Heq; rewrite Heq, Hl1 in Hfresh; done).
  eexists s1, r2, _. split; [exact Hc|]. split; [by eexists|].
  split; [done|]. split; [exact Hc2|]. simpl. split_and!; try done.
  - eexists. rewrite lookup_insert_ne by done. apply lookup_insert_eq.
  - exists accs. by rewrite !lookup_insert_ne.
Qed.

(** X4.  [create] and [wrapReference] keep a well-formed heap well-formed,
    whatever their argument and whether they return or throw; in
    particular the [Reference] that [create] returns never wraps a
    [Reference]. *)
Theorem create_keeps_references_flat (s : state) :
  wf_refs (heap s) →
  (∀ v, wf_refs (heap (snd (create W v s)))) ∧
  (∀ v wrappedReference,
     wf_refs (heap (snd (wrapReference W v wrappedReference s)))) ∧
  (∀ v ref s', create W v s = (Ok (VObj ref), s') →
     ∃ e, unwrap ref s' = (Ok e, s') ∧ is_Reference (heap s') e = false).
Proof.
  intros Hwf. split_and!.
  - intros v. by apply create_wf_refs.
  - intros v b. by apply wrapReference_wf_refs.
  - intros v ref s' Hc.
    pose proof (create_wf_refs W v s Hwf) as Hwf'. rewrite Hc in Hwf'. simpl in Hwf'.
    unfold create in Hc.
    apply bind_Ok_inv in Hc as (u & ? & [_ ->]%read_Ok_inv & Hc).
    apply bind_Ok_inv in Hc as (l & ? & [_ ->]%read_Ok_inv & Hc).
    apply bind_Ok_inv in Hc as (r & s1 & Hto & Hc).
    apply bind_Ok_inv in Hc as (cur & ? & [Hcur ->]%read_Ok_inv & Hc).
    apply bind_Ok_inv in Hc as ([] & s2 & Hset & Hc).
    unfold ret in Hc. injection Hc as <- <-.
    assert (∃ e a, heap s2 !! r = Some (OReference e a)) as (e & a & Hr).
    { unfold this_entity in Hcur.
      destruct (heap s1 !! r) as [[e0 a0| |]|] eqn:Hr1; try discriminate.
      destruct (negb (strict_eq u cur)).
      - apply set_Ok_inv in Hset as (u' & e1 & a1 & l' & f' & w' & _ & Hr & _ & Hl' & ->).
        simpl. destruct (decide (l' = r)) as [->|Hne].
        + by rewrite lookup_insert_eq in Hl'.
        + rewrite lookup_insert_ne by done. rewrite lookup_insert_eq. eauto.
      - unfold ret in Hset. injection Hset as <-. eauto. }
    exists e. split.
    + unfold unwrap, read, this_entity. by rewrite Hr.
    + by destruct (wf_refs_entity _ _ _ _ Hwf' Hr).
Qed.

(** X5.  On a well-formed heap [unwrapReference] is idempotent, and it
    undoes [wrapReference]: for a persisted handle, raw or wrapped, the
    result of [wrapReference] unwraps to the handle, whether the property
    asks for a wrapper or not; it is a [Reference] when the property asks for
    one; an argument that already is a [Reference], and any argument of a
    property that asks for none, comes back as it is with nothing changed;
    and wrapping the result once more returns it unchanged. *)
Theorem wrapReference_round_trip (s : state) :
  wf_refs (heap s) →
  (∀ x u, unwrapReference W (heap s) x = Ok u →
          unwrapReference W (heap s) u = Ok u) ∧
  (∀ v l wrappedReference,
     handle_ok (heap s) l = true →
     v = VObj l ∨ (∃ r0, v = VObj r0 ∧ wraps (heap s) r0 l) →
     ∃ out s',
       wrapReference W v wrappedReference s = (Ok out, s') ∧
       unwrapReference W (heap s') out = Ok (VObj l) ∧
       (wrappedReference = true → is_Reference (heap s') out = true) ∧
       (wrappedReference = false ∨ is_Reference (heap s) v = true →
          out = v ∧ s' = s) ∧
       wrapReference W out wrappedReference s' = (Ok out, s')).
Proof.
  intros Hwf. split.
  - intros x u Hu.
    destruct (unwrapReference_wf W _ x Hwf (unwrapReference_Ok_closed W _ _ _ Hu))
      as (u' & Hu' & Hnr & Hc & _).
    rewrite Hu in Hu'. injection Hu' as <-.
    destruct (unwrapReference_wf W _ u Hwf Hc) as (u2 & Hu2 & _ & _ & _ & Hsame).
    rewrite Hu2. f_equal. by apply Hsame.
  - intros v l b Hok Hv.
    destruct (handle_ok_inv _ _ Hok) as (fields & w & Hl & _).
    assert (isEntity (heap s) (VObj l) = true) as He by (simpl; by rewrite Hl).
    destruct (unwrapReference_persisted W _ v l Hwf He Hv) as [Hu _].
    assert (truthy v = true) as Htv by (by destruct Hv as [->|(? & -> & _)]).
    assert (closed (heap s) v = true) as Hcv by by eapply unwrapReference_Ok_closed.
    assert (∀ s0 x, wf_refs (heap s0) → is_Reference (heap s0) x = true →
              wrapReference W x b s0 = (Ok x, s0)) as Hpass.
    { intros s0 x Hwf0 Hx. unfold wrapReference.
      destruct (truthy x && b); [|done].
      assert (closed (heap s0) x = true) as Hcx.
      { destruct x as [| | | | |y]; try done. simpl in *.
        apply bool_decide_eq_true. destruct (heap s0 !! y); [eauto|done]. }
      rewrite (bind_Ok _ _ s0 (VBool true) s0); [done|].
      apply read_Ok. rewrite isReference_wf by done. by rewrite Hx. }
    destruct b.
    + destruct (is_Reference (heap s) v) eqn:Hrv.
      * exists v, s. split_and!; try done; by apply Hpass.
      * destruct (create_Ok W s v l Hwf Hok Hv)
          as (ref & s' & Hc & [a Hw] & Hwf' & Hok' & _ & _).
        assert (is_Reference (heap s') (VObj ref) = true) as Href
          by (simpl; by rewrite Hw).
        exists (VObj ref), s'. split_and!; try done.
        -- unfold wrapReference. rewrite Htv. simpl.
           rewrite (bind_Ok _ _ s (VBool false) s); [done|].
           apply read_Ok. rewrite isReference_wf by done. by rewrite Hrv, Htv.
        -- destruct (handle_ok_inv _ _ Hok') as (f' & w' & Hl' & _).
           apply unwrapReference_persisted; try done.
           ++ simpl. by rewrite Hl'.
           ++ right. exists ref. split; [done|]. by exists a.
        -- by intros [?|?].
        -- by apply Hpass.
    + exists v, s. unfold wrapReference. rewrite andb_false_r.
      split_and!; try done.
Qed.

(** X6.  [set] is idempotent: on a well-formed heap, a [set] that has
    returned can be repeated with the same argument and changes nothing the
    second time. *)
Theorem set_is_idempotent (s : state) this (v : value) s1 :
  wf_refs (heap s) →
  set W this v s = (Ok tt, s1) →
  set W this v s1 = (Ok tt, s1).
Proof.
  intros Hwf Hset.
  pose proof (set_wf_refs W this v s Hwf) as Hwf1. rewrite Hset in Hwf1.
  destruct (set_Ok_wf W _ _ _ _ Hwf Hset)
    as (e0 & accs & l & fields & w & Hu & Hne & Hthis & Hl & ->). simpl in Hwf1.
  set (h1 := <[l := OEntity fields (with_reference w None)]>
               (<[this := OReference (VObj l) accs]> (heap s))) in *.
  assert (h1 !! l = Some (OEntity fields (with_reference w None))) as Hl1
    by apply lookup_insert_eq.
  assert (h1 !! this = Some (OReference (VObj l) accs)) as Hthis1.
  { unfold h1. rewrite lookup_insert_ne by done. apply lookup_insert_eq. }
  assert (unwrapReference W h1 v = Ok (VObj l)) as Hu1.
  { pose proof (unwrapReference_Ok_closed W _ _ _ Hu) as Hc.
    destruct (unwrapReference_wf W _ v Hwf Hc) as (u & Hu' & _ & _ & Hr & Hn).
    rewrite Hu in Hu'. injection Hu' as <-.
    assert (closed h1 v = true) as Hc1.
    { destruct v as [| | | | |x]; try done. simpl in *.
      apply bool_decide_eq_true in Hc as [o Ho]. apply bool_decide_eq_true.
      unfold h1. rewrite !lookup_insert. repeat case_decide; eauto. }
    destruct (unwrapReference_wf W _ v Hwf1 Hc1) as (u1 & Hu1 & _ & _ & Hr1 & Hn1).
    rewrite Hu1. f_equal.
    destruct (is_Reference (heap s) v) eqn:Hrv.
    - destruct v as [| | | | |x]; try discriminate. simpl in Hrv.
      destruct (heap s !! x) as [[e a| |]|] eqn:Hx; try discriminate.
      pose proof (Hr x e a eq_refl Hx) as He.
      destruct (decide (x = this)) as [->|Hxt].
      + by eapply Hr1.
      + eapply Hr1; [done|]. unfold h1.
        rewrite lookup_insert_ne by (intros ->; rewrite Hl in Hx; done).
        rewrite lookup_insert_ne by done. by rewrite Hx, He.
    - pose proof (Hn eq_refl) as Hv. subst v. apply Hn1. simpl. by rewrite Hl1. }
  rewrite (set_Ok W this v {| heap := h1; trace := trace s |} (VObj l) accs l fields
             (with_reference w None) Hu1 Hthis1 Hl1).
  simpl. do 2 f_equal. apply map_eq. intros i.
  destruct (decide (l = i)) as [<-|?]; [by rewrite lookup_insert_eq|].
  rewrite lookup_insert_ne by done.
  destruct (decide (this = i)) as [<-|?]; [by rewrite lookup_insert_eq|].
  by rewrite lookup_insert_ne.
Qed.

(** X7.  [set] is not atomic.  With an argument that is no object ([null],
    [undefined], a number, a string, a boolean) the assignment to [entity]
    has taken place when reading the helper throws a [TypeError]: afterwards
    [unwrap] returns that argument, and [isInitialized] and [getEntity] throw
    a [TypeError] as well, not the error of an uninitialized handle. *)
Theorem failed_set_leaves_the_Reference_repointed (s : state) this v e0 accs :
  heap s !! this = Some (OReference e0 accs) →
  (∀ l, v ≠ VObj l) →
  ∃ message s',
    set W this v s = (Throw (TypeError message), s') ∧
    s' = {| heap := <[this := OReference v accs]> (heap s); trace := trace s |} ∧
    unwrap this s' = (Ok v, s') ∧
    (∃ m, isInitialized this s' = (Throw (TypeError m), s')) ∧
    (∃ m, getEntity W this s' = (Throw (TypeError m), s')).
Proof.
  intros Hthis Hv.
  set (s' := {| heap := <[this := OReference v accs]> (heap s); trace := trace s |}).
  assert (this_entity (heap s') this = Ok v) as He
    by (unfold this_entity; simpl; by rewrite lookup_insert_eq).
  assert (isInitialized this s'
          = (Throw (TypeError "Cannot read properties of undefined"), s')) as Hi.
  { unfold isInitialized, bind, read. rewrite He. by rewrite helper_primitive. }
  exists "Cannot read properties of undefined", s'. split_and!; try done.
  - unfold set. rewrite (bind_Ok _ _ s v s)
      by (apply read_Ok; by apply unwrapReference_primitive).
    rewrite (bind_Ok _ _ s tt s')
      by (unfold assign_entity, store; by rewrite Hthis).
    unfold bind, read. rewrite He. by rewrite helper_primitive.
  - unfold unwrap, read. by rewrite He.
  - by eexists.
  - eexists. unfold getEntity. by rewrite (bind_Throw _ _ _ _ _ Hi).
Qed.

(** X8.  After a [set] that returns, [isInitialized] and [getEntity] answer
    for the new handle, whatever the previous one was: [isInitialized] is
    the flag of the new handle, [getEntity] returns the new handle when that
    flag is set and throws the not-initialized error when it is not. *)
Theorem set_then_getEntity (s : state) this (v : value) s' :
  wf_refs (heap s) →
  set W this v s = (Ok tt, s') →
  ∃ l fields w,
    unwrapReference W (heap s) v = Ok (VObj l) ∧
    heap s !! l = Some (OEntity fields w) ∧
    isInitialized this s' = (Ok (__initialized w), s') ∧
    (__initialized w = true → getEntity W this s' = (Ok (VObj l), s')) ∧
    (__initialized w = false →
       ∃ message, getEntity W this s' = (Throw (Error message), s')).
Proof.
  intros Hwf Hset.
  destruct (set_Ok_wf W _ _ _ _ Hwf Hset)
    as (e0 & accs & l & fields & w & Hu & Hne & Hthis & Hl & ->).
  set (s' := {| heap := _; trace := _ |}).
  assert (heap s' !! l = Some (OEntity fields (with_reference w None))) as Hl1
    by apply lookup_insert_eq.
  assert (heap s' !! this = Some (OReference (VObj l) accs)) as Hthis1.
  { simpl. rewrite lookup_insert_ne by done. apply lookup_insert_eq. }
  pose proof (isInitialized_wraps _ _ _ _ _ _ Hthis1 Hl1) as Hi. simpl in Hi.
  exists l, fields, w. split_and!; try done.
  - intros Hw. rewrite Hw in Hi. rewrite getEntity_of_initialized by done.
    unfold unwrap, read, this_entity. by rewrite Hthis1.
  - intros Hw. rewrite Hw in Hi. eexists. unfold getEntity.
    rewrite (bind_Ok _ _ _ _ _ Hi). simpl.
    unfold bind, read, this_entity, wrapped, throw.
    rewrite Hthis1, (helper_entity _ _ _ _ Hl1), Hl1. reflexivity.
Qed.

(** X9.  After a [load()] that has returned and left the handle initialized,
    [getEntity] succeeds and returns the handle that [load] returned, and
    [getProperty] reads that handle; after a [load(key)] with a non-empty
    key, [getProperty(key)] returns what [load(key)] returned. *)
Theorem getEntity_after_load (s : state) this (options v : value) s1 :
  load W this options s = (Ok v, s1) →
  isInitialized this s1 = (Ok true, s1) →
  (options = VUndefined →
     getEntity W this s1 = (Ok v, s1) ∧ unwrap this s1 = (Ok v, s1) ∧
     ∀ prop, getProperty W this prop s1 = (get_prop W (heap s1) v prop, s1)) ∧
  (∀ k, options = VStr k → k ≠ "" → getProperty W this k s1 = (Ok v, s1)).
Proof.
  intros Hload Hi. apply load_Ok_result in Hload. unfold load_result in Hload.
  split.
  - intros ->. simpl in Hload. unfold bind at 1 in Hload. simpl in Hload.
    assert (getEntity W this s1 = (Ok v, s1)) as Hget
      by by rewrite getEntity_of_initialized.
    split_and!; try done. intros prop. unfold getProperty.
    by rewrite (bind_Ok _ _ _ _ _ Hget).
  - intros k -> Hk. simpl in Hload. unfold bind at 1 in Hload. simpl in Hload.
    rewrite bool_decide_eq_false_2 in Hload by done. simpl in Hload.
    apply bind_Ok_inv in Hload as (e & ? & [He ->]%read_Ok_inv & Hload).
    apply read_Ok_inv in Hload as [Hv _].
    assert (getEntity W this s1 = (Ok e, s1)) as Hget.
    { rewrite getEntity_of_initialized by done. unfold unwrap, read. by rewrite He. }
    unfold getProperty. rewrite (bind_Ok _ _ _ _ _ Hget). unfold read. by rewrite Hv.
Qed.

(** X10.  On a handle that is not initialized, [load] calls the delegate
    once, with [undefined] first and then the [populate], [lockMode] and
    [connectionType] of the options object, each [undefined] when the
    object lacks it or when a key or nothing was passed; and an error that
    the delegate raises is the error of [load], unchanged. *)
Theorem load_forwards_options (s : state) this l accs fields w (options : value) :
  heap s !! this = Some (OReference (VObj l) accs) →
  heap s !! l = Some (OEntity fields w) → __initialized w = false →
  (∀ o ofields,
     options = VObj o → heap s !! o = Some (OPlain ofields) →
     let arg k := default VUndefined (ofields !! k) in
     let ev := EvInit l VUndefined (arg "populate") (arg "lockMode")
                 (arg "connectionType") in
     trace (snd (load W this options s)) = (trace s ++ [ev])%list ∧
     ∀ e h1,
       init W l VUndefined (arg "populate") (arg "lockMode")
         (arg "connectionType") (heap s) = (Throw e, h1) →
       load W this options s
       = (Throw e, {| heap := h1; trace := (trace s ++ [ev])%list |})) ∧
  (typeof_object options = false →
     let ev := EvInit l VUndefined VUndefined VUndefined VUndefined in
     trace (snd (load W this options s)) = (trace s ++ [ev])%list ∧
     ∀ e h1,
       init W l VUndefined VUndefined VUndefined VUndefined (heap s)
       = (Throw e, h1) →
       load W this options s
       = (Throw e, {| heap := h1; trace := (trace s ++ [ev])%list |})).
Proof.
  intros Hthis Hl Hw.
  pose proof (isInitialized_wraps _ _ _ _ _ _ Hthis Hl) as Hi. rewrite Hw in Hi.
  assert (∀ opts p m c,
            opts = (if typeof_object options then OptsGiven options
                    else OptsProp options) →
            opts_optional W (heap s) opts "populate" = Ok p →
            opts_optional W (heap s) opts "lockMode" = Ok m →
            opts_optional W (heap s) opts "connectionType" = Ok c →
            trace (snd (load W this options s))
            = (trace s ++ [EvInit l VUndefined p m c])%list ∧
            ∀ e h1, init W l VUndefined p m c (heap s) = (Throw e, h1) →
              load W this options s
              = (Throw e, {| heap := h1;
                             trace := (trace s ++ [EvInit l VUndefined p m c])%list |}))
    as Hgen.
  { intros opts p m c -> Hp Hm Hc. rewrite load_uninitialized by done. simpl.
    unfold this_entity. rewrite Hthis, (helper_entity _ _ _ _ Hl), Hp, Hm, Hc.
    destruct (init W l VUndefined p m c (heap s)) as [[[]|x] h1] eqn:Hinit.
    - split; [|done]. by rewrite load_result_state.
    - split; [done|]. by intros e h2 [= <- <-]. }
  split.
  - intros o ofields -> Ho arg ev.
    apply (Hgen (OptsGiven (VObj o))); try done; unfold opts_optional, get_prop;
      simpl; by rewrite (get_prop_at_fields W _ _ _ ofields) by eauto.
  - intros Hty ev. apply (Hgen (OptsProp options)); try done. by rewrite Hty.
Qed.

(** X11.  [load(null)] never returns: [typeof null] is ['object'], so the
    options are [null] and reading their [prop] throws a [TypeError].  On an
    initialized handle nothing else happens; on a handle that is not
    initialized the delegate has been called first, with [undefined]
    arguments, and its effect stays. *)
Theorem load_null_throws (s : state) this l accs fields w :
  heap s !! this = Some (OReference (VObj l) accs) →
  heap s !! l = Some (OEntity fields w) →
  (__initialized w = true →
     ∃ message, load W this VNull s = (Throw (TypeError message), s)) ∧
  (__initialized w = false →
     ∀ h1, init W l VUndefined VUndefined VUndefined VUndefined (heap s)
           = (Ok tt, h1) →
     ∃ message s1,
       load W this VNull s = (Throw (TypeError message), s1) ∧
       heap s1 = h1 ∧ fetches s1 = S (fetches s)).
Proof.
  intros Hthis Hl.
  pose proof (isInitialized_wraps _ _ _ _ _ _ Hthis Hl) as Hi.
  split; intros Hw; rewrite Hw in Hi.
  - eexists. rewrite load_initialized by done. unfold load_result. simpl.
    unfold bind, read, opts_get, get_prop. by destruct (size (heap s)).
  - intros h1 Hinit. rewrite load_uninitialized by done. simpl.
    unfold this_entity. rewrite Hthis, (helper_entity _ _ _ _ Hl), Hinit.
    unfold load_result. simpl. rewrite bind_read. simpl.
    unfold get_prop. eexists _, {| heap := h1; trace := _ |}.
    split; [by destruct (size h1)|]. split; [done|].
    by eapply fetches_snoc.
Qed.

(** X12.  One [load] issues at most one fetch, whatever its argument and its
    outcome, and none unless the handle was not initialized; it never calls
    the factory. *)
Theorem load_issues_at_most_one_fetch (s : state) this (options : value) :
  (fetches (snd (load W this options s)) ≤ S (fetches s))%nat ∧
  (fetches (snd (load W this options s)) ≠ fetches s →
     isInitialized this s = (Ok false, s)) ∧
  factory_calls (snd (load W this options s)) = factory_calls s.
Proof.
  destruct (load_trace W s this options) as [Hsame|(ev & Hev & Htr & Hi)].
  - unfold fetches, factory_calls. rewrite Hsame. split_and!; [lia|done|done].
  - rewrite (fetches_snoc s _ ev Htr Hev). split_and!; [lia|done|].
    unfold factory_calls. rewrite Htr, filter_app, length_app.
    destruct ev; try discriminate. simpl. lia.
Qed.

(** X13.  A new [Reference] exposes the identifiers of its handle and no
    other field.  Read on the wrapper, the name of a primary key gives the
    value of that field of the handle, and a separate serialized key gives
    what the helper computes; any other name that is no member of
    [Reference] or of [Object.prototype] reads as [undefined], also when the
    handle has a field of that name. *)
Theorem wrapper_exposes_identifiers_only (s : state) l fields w :
  wf_refs (heap s) →
  heap s !! l = Some (OEntity fields w) → meta_ok (__meta w) = true →
  ∃ this s',
    new_Reference W (VObj l) s = (Ok this, s') ∧
    heap s !! this = None ∧
    (∀ k, k ∈ primaryKeys (__meta w) →
          read_accessor W this k s' = (Ok (default VUndefined (fields !! k)), s')) ∧
    (∀ spk, serializedPrimaryKey (__meta w) = Some spk → spk ≠ "" →
            primaryKeys (__meta w) !! 0 ≠ Some spk →
            read_accessor W this spk s'
            = (Ok (getSerializedPrimaryKey W (heap s') l), s')) ∧
    (∀ k, k ∉ primaryKeys (__meta w) → serializedPrimaryKey (__meta w) ≠ Some k →
          k ∉ reserved → k ∉ object_members →
          read_accessor W this k s' = (Ok VUndefined, s') ∧
          get_prop W (heap s') (VObj l) k = Ok (default VUndefined (fields !! k))).
Proof.
  intros Hwf Hl Hmeta.
  set (this := fresh (dom (heap s))).
  assert (heap s !! this = None) as Hfresh by apply fresh_lookup_None.
  assert (this ≠ l) as Hne by (intros Heq; rewrite Heq, Hl in Hfresh; done).
  eexists this, _. split; [by apply new_Reference_Ok|]. simpl. fold this.
  set (h' := <[this := OReference (VObj l) (accessors_of (__meta w))]>
               (<[l := OEntity fields (with_reference w None)]> (heap s))).
  assert (h' !! this = Some (OReference (VObj l) (accessors_of (__meta w)))) as Hthis'
    by apply lookup_insert_eq.
  assert (h' !! l = Some (OEntity fields (with_reference w None))) as Hl'.
  { unfold h'. rewrite lookup_insert_ne by done. apply lookup_insert_eq. }
  split_and!; [done| | |].
  - intros k Hk. unfold read_accessor, read. simpl.
    by rewrite (get_prop_accessor_pk W _ _ _ _ _ _ k k Hthis' Hl'
                  (accessors_of_pk _ _ Hmeta Hk)).
  - intros spk Hs Hne0 Hfirst. unfold read_accessor, read. simpl.
    rewrite (get_prop_accessor_serialized W _ _ _ _ _ _ spk Hthis' Hl'); [done|].
    apply accessors_of_serialized; [done|]. unfold has_serialized_accessor. simpl.
    by rewrite !bool_decide_eq_false_2.
  - intros k Hk Hs Hres _. split.
    + unfold read_accessor, read. simpl.
      by rewrite (get_prop_no_accessor W _ _ _ _ k Hthis' (accessors_of_other _ _ Hk Hs)).
    + by rewrite (get_prop_entity W _ _ _ _ k Hl').
Qed.

(** X14.  The constructor defines the serialized key even when a primary
    key other than the first bears that name; the accessor of that primary
    key exists by then and cannot be redefined, so the constructor throws a
    [TypeError] that names the key.  The [set] at its start has taken place:
    the marker of the handle is gone. *)
Theorem constructor_rejects_a_repeated_key (s : state) l fields w spk :
  wf_refs (heap s) → heap s !! l = Some (OEntity fields w) →
  NoDup (primaryKeys (__meta w)) →
  Forall (λ k, k ∉ reserved) (primaryKeys (__meta w)) →
  serializedPrimaryKey (__meta w) = Some spk → spk ≠ "" →
  spk ∈ primaryKeys (__meta w) → primaryKeys (__meta w) !! 0 ≠ Some spk →
  ∃ s',
    new_Reference W (VObj l) s
    = (Throw (TypeError ("Cannot redefine property: " ++ spk)), s') ∧
    heap s' !! l = Some (OEntity fields (with_reference w None)) ∧
    trace s' = trace s.
Proof.
  intros Hwf Hl Hnd Hres Hs Hne0 Hin Hfirst.
  set (this := fresh (dom (heap s))).
  assert (heap s !! this = None) as Hfresh by apply fresh_lookup_None.
  assert (this ≠ l) as Hne by (intros Heq; rewrite Heq, Hl in Hfresh; done).
  rewrite (new_Reference_keys W s l fields w Hwf Hl Hnd Hres). fold this. simpl.
  rewrite Hs. simpl. rewrite !bool_decide_eq_false_2 by done. simpl.
  unfold bind, defineProperty. simpl. rewrite lookup_insert_eq.
  rewrite bool_decide_eq_false_2 by (by eapply Forall_forall in Hres).
  rewrite pk_accessors_lookup, decide_True by done.
  eexists. split; [reflexivity|]. simpl. split; [|done].
  rewrite lookup_insert_ne by done. apply lookup_insert_eq.
Qed.

(** X15.  Calling the constructor on a handle that has a canonical
    [Reference] unregisters it: the [set] inside the constructor deletes the
    marker and the constructor does not set it again.  [create], which
    returned the canonical [Reference] before, builds a third one
    afterwards; all three wrap the handle. *)
Theorem constructor_forgets_the_canonical_Reference (s : state) l fields w r :
  wf_refs (heap s) →
  heap s !! l = Some (OEntity fields w) → meta_ok (__meta w) = true →
  __reference w = Some r → wraps (heap s) r l →
  create W (VObj l) s = (Ok (VObj r), s) ∧
  ∃ this s1 r2 s2,
    new_Reference W (VObj l) s = (Ok this, s1) ∧
    heap s1 !! l = Some (OEntity fields (with_reference w None)) ∧
    create W (VObj l) s1 = (Ok (VObj r2), s2) ∧
    this ≠ r ∧ r2 ≠ r ∧ r2 ≠ this ∧
    wraps (heap s2) r l ∧ wraps (heap s2) this l ∧ wraps (heap s2) r2 l.
Proof.
  intros Hwf Hl Hmeta Hw [accs Hr].
  split; [eapply create_marked; try done; [by exists accs|by left]|].
  set (this := fresh (dom (heap s))).
  assert (heap s !! this = None) as Hfresh by apply fresh_lookup_None.
  assert (this ≠ l) as Hne by (intros Heq; rewrite Heq, Hl in Hfresh; done).
  assert (this ≠ r) as Hner by (intros Heq; rewrite Heq, Hr in Hfresh; done).
  assert (l ≠ r) as Hlr by (intros Heq; rewrite Heq, Hr in Hl; done).
  pose proof (new_Reference_Ok W s l fields w Hwf Hl Hmeta) as Hnew. fold this in Hnew.
  pose proof (new_Reference_wf_refs W (VObj l) s Hwf) as Hwf1.
  rewrite Hnew in Hwf1. simpl in Hwf1.
  specialize (Hwf1 ltac:(apply bool_decide_eq_true; eauto)).
  set (h1 := <[this := OReference (VObj l) (accessors_of (__meta w))]>
               (<[l := OEntity fields (with_reference w None)]> (heap s))) in *.
  assert (h1 !! l = Some (OEntity fields (with_reference w None))) as Hl1.
  { unfold h1. rewrite lookup_insert_ne by done. apply lookup_insert_eq. }
  assert (h1 !! this = Some (OReference (VObj l) (accessors_of (__meta w)))) as Hthis1
    by apply lookup_insert_eq.
  assert (h1 !! r = Some (OReference (VObj l) accs)) as Hr1.
  { unfold h1. by rewrite !lookup_insert_ne. }
  set (s1 := {| heap := h1; trace := trace s |}).
  pose proof (create_unmarked W s1 (VObj l) l fields (with_reference w None)
                Hwf1 Hl1 eq_refl Hmeta (or_introl eq_refl)) as Hc2.
  set (r2 := fresh (dom (heap s1))) in *.
  assert (h1 !! r2 = None) as Hfresh2 by apply fresh_lookup_None.
  assert (r2 ≠ r) as Hne2 by (intros Heq; rewrite Heq, Hr1 in Hfresh2; done).
  assert (r2 ≠ l) as Hne3 by (intros Heq; rewrite Heq, Hl1 in Hfresh2; done).
  assert (r2 ≠ this) as Hne4 by (intros Heq; rewrite Heq, Hthis1 in Hfresh2; done).
  eexists this, s1, r2, _. split; [exact Hnew|]. split; [done|].
  split; [exact Hc2|]. simpl. split_and!; try done.
  - exists accs. by rewrite !lookup_insert_ne.
  - eexists. by rewrite !lookup_insert_ne.
  - eexists. rewrite lookup_insert_ne by done. apply lookup_insert_eq.
Qed.


(** X17.  On a handle whose marker is in order, [ref] with the handle or
    with one of its wrappers as the only argument does what [create] does,
    in result and in effect; and an entity in the second place takes
    precedence over whatever comes first, unless that is [null] or
    [undefined]. *)
Theorem ref_is_create_on_ordered_handles (s : state) (v : value) (l : loc) :
  wf_refs (heap s) → handle_ok (heap s) l = true → canonical (heap s) l →
  v = VObj l ∨ (∃ r0, v = VObj r0 ∧ wraps (heap s) r0 l) →
  (∀ pk, isEntity (heap s) pk = false → ref W (AValue v) pk s = create W v s) ∧
  (∀ a, a ≠ AValue VNull → a ≠ AValue VUndefined →
        ref W a (VObj l) s = create W (VObj l) s).
Proof.
  intros Hwf Hok (fields & w & Hl & Hcan) Hv.
  destruct (handle_ok_inv _ _ Hok) as (fields' & w' & Hl' & Hmeta & _).
  rewrite Hl in Hl'. injection Hl' as <- <-.
  assert (isEntity (heap s) (VObj l) = true) as He by (simpl; by rewrite Hl).
  assert (∀ x, x = VObj l ∨ (∃ r0, x = VObj r0 ∧ wraps (heap s) r0 l) →
               helper_toReference W x s = create W x s) as Hsame.
  { intros x Hx.
    destruct (unwrapReference_persisted W _ x l Hwf He Hx) as [_ Hh].
    destruct (__reference w) as [r|] eqn:Hw.
    - rewrite (helper_toReference_marked W s x l fields w r Hh Hl Hw).
      symmetry. eapply create_marked; eauto.
    - rewrite (helper_toReference_fresh W s x l fields w Hwf Hh Hl Hw Hmeta).
      symmetry. by apply create_unmarked. }
  split.
  - intros pk Hpk. rewrite <- (Hsame v Hv). unfold ref.
    assert (is_nullish v = false) as -> by (by destruct Hv as [->|(? & -> & _)]).
    rewrite bind_read. by rewrite Hpk.
  - intros a Hn Hu. rewrite <- (Hsame (VObj l) (or_introl eq_refl)).
    destruct a as [x|ty]; unfold ref.
    + assert (is_nullish x = false) as -> by (by destruct x).
      rewrite bind_read. by rewrite He.
    + rewrite bind_read. by rewrite He.
Qed.

(** X18.  [ref] calls the factory only when its first argument is an entity
    class and its second a bare identifier, neither missing nor an entity;
    it is [createFromPK] without options then.  In every other case it calls
    no collaborator at all, and with a first argument that is [null] or
    [undefined], or with a class and a missing identifier, it hands back its
    second argument and changes nothing. *)
Theorem ref_calls_the_factory_only_for_identifiers (s : state) (pk : value) :
  (∀ v, trace (snd (ref W (AValue v) pk s)) = trace s) ∧
  (∀ v, is_nullish v = true → ref W (AValue v) pk s = (Ok pk, s)) ∧
  (∀ entityType, is_nullish pk = true → ref W (AClass entityType) pk s = (Ok pk, s)) ∧
  (∀ entityType, isEntity (heap s) pk = true →
     trace (snd (ref W (AClass entityType) pk s)) = trace s) ∧
  (∀ entityType, is_nullish pk = false → isEntity (heap s) pk = false →
     ref W (AClass entityType) pk s = createFromPK W entityType pk None s ∧
     ∃ rest, trace (snd (ref W (AClass entityType) pk s))
             = (trace s ++ EvCreateReference entityType pk false false None
                            :: rest)%list).
Proof.
  assert (∀ x, silent (helper_toReference W x)) as Hsil
    by apply silent_helper_toReference.
  split_and!.
  - intros v. unfold ref. destruct (is_nullish v); [done|].
    rewrite bind_read. destruct (isEntity (heap s) pk); apply Hsil.
  - intros v Hv. unfold ref. by rewrite Hv.
  - intros ty Hpk. unfold ref. rewrite bind_read.
    assert (isEntity (heap s) pk = false) as -> by (by destruct pk).
    by rewrite Hpk.
  - intros ty He. unfold ref. rewrite bind_read, He. apply Hsil.
  - intros ty Hpk He.
    assert (ref W (AClass ty) pk s = createFromPK W ty pk None s) as Href.
    { unfold ref. rewrite bind_read. by rewrite He, Hpk. }
    split; [done|]. rewrite Href. unfold createFromPK.
    destruct (extends_trace_createNakedFromPK W ty pk None s) as [rest Hrest].
    unfold bind at 1.
    destruct (createNakedFromPK W ty pk None s) as [[e|x] s1]; [|by exists rest].
    simpl in Hrest.
    match goal with
    | |- ∃ _, trace (snd (?m s1)) = _ =>
        assert (trace (snd (m s1)) = trace s1) as ->; [|by exists rest]
    end.
    apply (silent_helper_toReference W e s1).
Qed.

(** X19.  Unlike [create], [ref] does not point a [Reference] back.  When
    the [Reference] named by the marker of a handle has been pointed at
    something else, [ref] on the handle returns that [Reference] as it is,
    wrapping the other thing, while [create] on the handle returns it
    pointed at the handle again. *)
Theorem ref_returns_a_repointed_Reference (s : state) (l r : loc) fields w e accs pk :
  wf_refs (heap s) →
  heap s !! l = Some (OEntity fields w) → __reference w = Some r →
  heap s !! r = Some (OReference e accs) → e ≠ VObj l →
  isEntity (heap s) pk = false →
  ref W (AValue (VObj l)) pk s = (Ok (VObj r), s) ∧
  unwrap r s = (Ok e, s) ∧
  ∃ s', create W (VObj l) s = (Ok (VObj r), s') ∧
        unwrap r s' = (Ok (VObj l), s').
Proof.
  intros Hwf Hl Hw Hr Hne Hpk.
  assert (l ≠ r) as Hlr by (intros ->; rewrite Hr in Hl; done).
  split_and!.
  - unfold ref. simpl. rewrite bind_read, Hpk.
    by rewrite (helper_toReference_marked W s (VObj l) l fields w r
                  (helper_entity _ _ _ _ Hl) Hl Hw).
  - unfold unwrap, read, this_entity. by rewrite Hr.
  - eexists. split; [by eapply create_repointed; eauto|].
    unfold unwrap, read, this_entity. simpl.
    rewrite lookup_insert_ne by done. by rewrite lookup_insert_eq.
Qed.

(** X20.  [populated] hands its argument, as given, to the helper of the
    wrapped handle and does nothing else: no fetch, no factory call.  On a
    [Reference] that a failed [set] has left wrapping a value that is no
    object it throws a [TypeError] and calls nothing. *)
Theorem populated_delegates (s : state) this e accs (flag : value) :
  heap s !! this = Some (OReference e accs) →
  (∀ l fields w, e = VObj l → heap s !! l = Some (OEntity fields w) →
     populated W this flag s
     = (Ok tt, {| heap := populated_helper W l flag (heap s);
                  trace := (trace s ++ [EvPopulated l flag])%list |}) ∧
     fetches (snd (populated W this flag s)) = fetches s ∧
     factory_calls (snd (populated W this flag s)) = factory_calls s) ∧
  ((∀ l, e ≠ VObj l) →
     ∃ message, populated W this flag s = (Throw (TypeError message), s)).
Proof.
  intros Hthis. split.
  - intros l fields w -> Hl.
    assert (populated W this flag s
            = (Ok tt, {| heap := populated_helper W l flag (heap s);
                         trace := (trace s ++ [EvPopulated l flag])%list |})) as Hp.
    { unfold populated. rewrite bind_read. unfold this_entity. rewrite Hthis.
      rewrite bind_read, (helper_entity _ _ _ _ Hl). by rewrite bind_log. }
    rewrite Hp. unfold fetches, factory_calls. simpl.
    by rewrite !filter_app, !length_app, !Nat.add_0_r.
  - intros He. eexists. unfold populated. rewrite bind_read. unfold this_entity.
    rewrite Hthis. rewrite bind_read. by rewrite helper_primitive.
Qed.

(** X21.  [isReference] goes by the property [__reference] alone.  An
    entity or a plain object that has a truthy property of that name counts
    as a [Reference]: [wrapReference] hands it back unwrapped, while
    [unwrapReference], and with it [set] and [create], throw a [TypeError]
    for the missing [unwrap], changing nothing. *)
Theorem isReference_goes_by_the_marker (s : state) l fields :
  (∃ w, heap s !! l = Some (OEntity fields w)) ∨ heap s !! l = Some (OPlain fields) →
  truthy (own_marker fields) = true →
  isReference W (heap s) (VObj l) = Ok (VBool true) ∧
  unwrapReference W (heap s) (VObj l)
  = Throw (TypeError "ref.unwrap is not a function") ∧
  (∀ wrappedReference,
     wrapReference W (VObj l) wrappedReference s = (Ok (VObj l), s)) ∧
  (∀ this, set W this (VObj l) s
           = (Throw (TypeError "ref.unwrap is not a function"), s)) ∧
  create W (VObj l) s = (Throw (TypeError "ref.unwrap is not a function"), s).
Proof.
  intros Hl Ht.
  assert (isReference W (heap s) (VObj l) = Ok (VBool true)) as Hi
    by (by rewrite (isReference_fields W _ _ fields Hl), Ht).
  assert (unwrapReference W (heap s) (VObj l)
          = Throw (TypeError "ref.unwrap is not a function")) as Hu.
  { unfold unwrapReference. rewrite Hi. simpl.
    by destruct Hl as [[w ->]| ->]. }
  split_and!; try done.
  - intros b. unfold wrapReference. simpl. destruct b; [|done].
    rewrite bind_read. by rewrite Hi.
  - intros this. unfold set. rewrite bind_read. by rewrite Hu.
  - unfold create. rewrite bind_read. by rewrite Hu.
Qed.

(** X24.  What a [load] that returns hands out, with [e] the wrapped handle
    after initialization.  For a truthy key (a non-empty string, a number
    other than zero, [true]) it is the value that [e] has under the string
    conversion of the key.  Without an argument it is [e] itself.  For an
    options object it goes by the property [prop] of that object, read
    after initialization: [e] itself when there is none or it is falsy, and
    the value that [e] has under that name otherwise.  If the handle is
    initialized, or the delegate returns, [load] without an argument or with
    a truthy key does return. *)
Theorem load_returns_property_or_handle (s : state) this (options : value) :
  (∀ v s1,
     load W this options s = (Ok v, s1) →
     ∃ e, unwrap this s1 = (Ok e, s1) ∧
       (typeof_object options = false → truthy options = true →
          get_prop W (heap s1) e (to_string W (heap s1) options) = Ok v) ∧
       (∀ k, options = VStr k → k ≠ "" → get_prop W (heap s1) e k = Ok v) ∧
       (options = VUndefined → v = e) ∧
       (∀ o, options = VObj o →
          ∃ prop, get_prop W (heap s1) options "prop" = Ok prop ∧
            (truthy prop = false → v = e) ∧
            (truthy prop = true →
               get_prop W (heap s1) e (to_string W (heap s1) prop) = Ok v)) ∧
       (∀ o fields, options = VObj o → heap s1 !! o = Some (OPlain fields) →
                    fields !! "prop" = None → v = e)) ∧
  (∀ e, unwrap this s = (Ok e, s) →
        options = VUndefined ∨ (typeof_object options = false ∧ truthy options = true) →
        isInitialized this s = (Ok true, s) →
        load W this options s
        = (if truthy options
           then get_prop W (heap s) e (to_string W (heap s) options)
           else Ok e, s)) ∧
  (∀ l accs fields w h1 accs1,
     heap s !! this = Some (OReference (VObj l) accs) →
     heap s !! l = Some (OEntity fields w) → __initialized w = false →
     options = VUndefined ∨ (typeof_object options = false ∧ truthy options = true) →
     init W l VUndefined VUndefined VUndefined VUndefined (heap s) = (Ok tt, h1) →
     h1 !! this = Some (OReference (VObj l) accs1) →
     ∃ s1, heap s1 = h1 ∧
       load W this options s
       = (if truthy options
          then get_prop W h1 (VObj l) (to_string W h1 options)
          else Ok (VObj l), s1)).
Proof.
  assert (options = VUndefined ∨ (typeof_object options = false ∧ truthy options = true)
          → typeof_object options = false) as Hty0.
  { by intros [->|[? _]]. }
  split_and!.
  - intros v s1 Hload.
    pose proof (load_Ok_result W _ _ _ _ _ Hload) as Hres.
    clear Hload. unfold load_result in Hres.
    apply bind_Ok_inv in Hres as (prop & ? & [Hprop ->]%read_Ok_inv & Hres).
    assert (∃ e, this_entity (heap s1) this = Ok e ∧
                 if truthy prop
                 then get_prop W (heap s1) e (to_string W (heap s1) prop) = Ok v
                 else v = e) as (e & He & Hv).
    { destruct (truthy prop).
      - apply bind_Ok_inv in Hres as (e & ? & [He ->]%read_Ok_inv & Hres).
        apply read_Ok_inv in Hres as [Hres _]. eauto.
      - apply read_Ok_inv in Hres as [Hres _]. eauto. }
    exists e. split; [unfold unwrap, read; by rewrite He|].
    assert (typeof_object options = false → prop = options) as Hkey.
    { intros Hty. rewrite Hty in Hprop. simpl in Hprop. by injection Hprop. }
    split_and!.
    + intros Hty Ht. rewrite (Hkey Hty) in Hv. by rewrite Ht in Hv.
    + intros k -> Hk. rewrite (Hkey eq_refl) in Hv. simpl in Hv.
      by rewrite bool_decide_eq_false_2 in Hv.
    + intros ->. by rewrite (Hkey eq_refl) in Hv.
    + intros o ->. simpl in Hprop. exists prop. split; [done|].
      split; intros Ht; by rewrite Ht in Hv.
    + intros o fields -> Ho Hnone. simpl in Hprop.
      unfold get_prop in Hprop.
      rewrite (get_prop_at_fields W _ _ _ fields) in Hprop by eauto.
      rewrite Hnone in Hprop. by injection Hprop as <-.
  - intros e He Hopt Hi. rewrite load_initialized by done.
    unfold load_result. rewrite (Hty0 Hopt). unfold unwrap, read in He.
    injection He as He.
    unfold bind, read. simpl. destruct (truthy options); by rewrite ?He.
  - intros l accs fields w h1 accs1 Hthis Hl Hw Hopt Hinit Hthis1.
    eexists {| heap := h1; trace := _ |}. split; [done|].
    unfold load. rewrite (bind_Ok _ _ _ _ _ (isInitialized_wraps _ _ _ _ _ _ Hthis Hl)).
    rewrite Hw, (Hty0 Hopt). simpl.
    unfold bind, read, log, call, this_entity. simpl.
    rewrite Hthis, (helper_entity _ _ _ _ Hl). simpl.
    rewrite Hinit. simpl.
    destruct (truthy options); simpl; by rewrite Hthis1.
Qed.

End Further.

(** * Properties of the command-line configurator *)

(** X22.  With loaders that leave the environment alone, [configure]
    touches no variable but [MIKRO_ORM_CLI_USE_TS_NODE], and that one only
    when it is not set: a value that is there, the empty string included,
    stays.  When the environment has changed, the variable has become ["0"],
    the settings asked for [ts-node], its registration answered with a falsy
    value, and [configure] has returned the program. *)
Theorem configure_sets_the_fallback_only_when_unset (L : Loader) (c : cli_state) :
  loaders_keep_env L →
  (∀ k, k ≠ "MIKRO_ORM_CLI_USE_TS_NODE" →
        env (snd (configure L c)) !! k = env c !! k) ∧
  (∀ x, env c !! "MIKRO_ORM_CLI_USE_TS_NODE" = Some x →
        env (snd (configure L c)) = env c) ∧
  (env (snd (configure L c)) ≠ env c →
     env (snd (configure L c)) = <["MIKRO_ORM_CLI_USE_TS_NODE" := "0"]> (env c) ∧
     ∃ settings tsNode argv,
       fst (getSettings L (env c)) = Ok settings ∧
       truthy (useTsNode settings) = true ∧
       fst (registerTsNode L (tsConfigPath settings) (env c)) = Ok tsNode ∧
       truthy tsNode = false ∧
       fst (configure L c) = Ok argv).
Proof.
  intros (Hc & Hs & Hv & Hr). unfold configure, cbind, cli_call.
  pose proof (Hc (env c)) as H1.
  destruct (checkPackageVersion L (env c)) as [[[]|x] e1]; simpl in H1; subst e1;
    simpl; [|done].
  pose proof (Hs (env c)) as H2.
  destruct (getSettings L (env c)) as [[settings|x] e2]; simpl in H2; subst e2;
    simpl; [|done].
  pose proof (Hv (env c)) as H3.
  destruct (getORMVersion L (env c)) as [[v|x] e3]; simpl in H3; subst e3;
    simpl; [|done].
  destruct (truthy (useTsNode settings)) eqn:Hts; simpl; [|done].
  pose proof (Hr (tsConfigPath settings) (env c)) as H4.
  destruct (registerTsNode L (tsConfigPath settings) (env c)) as [[tsNode|x] e4]
    eqn:Hreg; simpl in H4; subst e4; simpl; [|done].
  destruct (truthy tsNode) eqn:Htn; simpl; [done|].
  unfold env_nullish_assign. simpl.
  destruct (env c !! "MIKRO_ORM_CLI_USE_TS_NODE") as [x|] eqn:Hvar; simpl; [done|].
  split_and!.
  - intros k Hk. by rewrite lookup_insert_ne.
  - done.
  - intros _. split; [done|]. exists settings, tsNode, (yargs_program v).
    rewrite Hreg. by split_and!.
Qed.

(** X23.  [configure] checks the package version before anything else: when
    that check fails, its error is the error of [configure] and no other
    loader has been called.  Whatever happens, the loaders are called in
    the order of the source, each at most once, and [ts-node] is registered
    only when the settings ask for it, with the path of the settings.  The
    program that [configure] returns has the same eighteen commands whatever
    the loaders and the environment are. *)
Theorem configure_checks_the_version_first (L : Loader) (c : cli_state) :
  (∀ e e1, checkPackageVersion L (env c) = (Throw e, e1) →
     configure L c
     = (Throw e, {| env := e1; calls := (calls c ++ [EvCheckPackageVersion])%list |})) ∧
  (∃ rest, calls (snd (configure L c))
           = (calls c ++ EvCheckPackageVersion :: rest)%list ∧
     (rest = [] ∨ rest = [EvGetSettings] ∨ rest = [EvGetSettings; EvGetORMVersion] ∨
      ∃ settings e1 e2,
        getSettings L e1 = (Ok settings, e2) ∧ truthy (useTsNode settings) = true ∧
        rest = [EvGetSettings; EvGetORMVersion;
                EvRegisterTsNode (tsConfigPath settings)])) ∧
  (∀ argv c', configure L c = (Ok argv, c') →
     length (commands argv) = 18 ∧
     ∀ L2 c2 argv2 c2', configure L2 c2 = (Ok argv2, c2') →
       commands argv2 = commands argv).
Proof.
  assert (∀ L0 c0 argv c', configure L0 c0 = (Ok argv, c') →
            ∃ v, argv = yargs_program v) as Hprog.
  { intros L0 c0 argv c'. unfold configure, cbind, cli_call.
    destruct (checkPackageVersion L0 (env c0)) as [[[]|x] e1]; simpl; [|done].
    destruct (getSettings L0 e1) as [[settings|x] e2]; simpl; [|done].
    destruct (getORMVersion L0 e2) as [[v|x] e3]; simpl; [|done].
    destruct (truthy (useTsNode settings)); simpl.
    - destruct (registerTsNode L0 (tsConfigPath settings) e3) as [[tsNode|x] e4];
        simpl; [|done].
      destruct (negb (truthy tsNode)); simpl; [|intros [= <- <-]; eauto].
      unfold env_nullish_assign. simpl.
      destruct (e4 !! "MIKRO_ORM_CLI_USE_TS_NODE"); intros [= <- <-]; eauto.
    - intros [= <- <-]. eauto. }
  split_and!.
  - intros e e1 Hcheck. unfold configure, cbind, cli_call. by rewrite Hcheck.
  - unfold configure, cbind, cli_call.
    destruct (checkPackageVersion L (env c)) as [[[]|x] e1]; simpl.
    2:{ exists []. split; [done|by left]. }
    destruct (getSettings L e1) as [[settings|x] e2] eqn:Hset; simpl.
    2:{ exists [EvGetSettings]. rewrite <- app_assoc. split; [done|]. right. by left. }
    destruct (getORMVersion L e2) as [[v|x] e3]; simpl.
    2:{ exists [EvGetSettings; EvGetORMVersion]. rewrite <- !app_assoc.
        split; [done|]. right. right. by left. }
    destruct (truthy (useTsNode settings)) eqn:Hts; simpl.
    2:{ exists [EvGetSettings; EvGetORMVersion]. rewrite <- !app_assoc.
        split; [done|]. right. right. by left. }
    exists [EvGetSettings; EvGetORMVersion; EvRegisterTsNode (tsConfigPath settings)].
    split; [|right; right; right; by exists settings, e1, e2].
    destruct (registerTsNode L (tsConfigPath settings) e3) as [[tsNode|x] e4]; simpl.
    + destruct (negb (truthy tsNode)); simpl; [|by rewrite <- !app_assoc].
      unfold env_nullish_assign. simpl.
      destruct (e4 !! "MIKRO_ORM_CLI_USE_TS_NODE"); simpl; by rewrite <- !app_assoc.
    + by rewrite <- !app_assoc.
  - intros argv c' Hconf. destruct (Hprog _ _ _ _ Hconf) as [v ->].
    split; [done|]. intros L2 c2 argv2 c2' Hconf2.
    by destruct (Hprog _ _ _ _ Hconf2) as [v2 ->].
Qed.

(** * Instances of the further properties on the concrete world *)

Lemma wrapping_calls_no_collaborator_witness :
  trace (snd (create demo_world (VObj 0) demo_state)) = trace demo_state.
Proof.
  destruct (wrapping_calls_no_collaborator demo_world demo_state) as [H _].
  exact (H (VObj 0)).
Defined.

Lemma create_is_stable_witness :
  ∃ ref s1,
    create demo_world (VObj 0) demo_state = (Ok (VObj ref), s1) ∧
    create demo_world (VObj ref) s1 = (Ok (VObj ref), s1).
Proof.
  destruct (create_is_stable demo_world demo_state (VObj 0) 0)
    as (ref & s1 & Hc & _ & _ & _ & Hr & _).
  - apply (bool_decide_unpack _); vm_compute; exact I.
  - vm_compute; reflexivity.
  - exists {["id" := VNum 7]}, (fresh_helper author_meta false).
    split; [vm_compute; reflexivity|]. intros r Hr. discriminate Hr.
  - left. reflexivity.
  - exists ref, s1. split; [exact Hc|exact Hr].
Defined.

Lemma create_after_repointing_witness :
  ∃ s1 r2 s2,
    create demo_world (VObj 0) demo_repointed = (Ok (VObj 3), s1) ∧
    create demo_world (VObj 0) s1 = (Ok (VObj r2), s2) ∧ r2 ≠ 3.
Proof.
  destruct (create_after_repointing demo_world demo_repointed 0 3
              {["id" := VNum 7]}
              (with_reference (fresh_helper author_meta false) (Some 3))
              (VObj 1) {["id" := PkGetter "id"]})
    as (s1 & r2 & s2 & Hc & _ & _ & Hc2 & Hne & _).
  - apply (bool_decide_unpack _); vm_compute; exact I.
  - vm_compute; reflexivity.
  - vm_compute; reflexivity.
  - reflexivity.
  - vm_compute; reflexivity.
  - discriminate.
  - exists s1, r2, s2. split; [exact Hc|]. split; [exact Hc2|exact Hne].
Defined.

Lemma create_keeps_references_flat_witness :
  wf_refs (heap (snd (create demo_world (VObj 0) demo_state))).
Proof.
  destruct (create_keeps_references_flat demo_world demo_state) as [H _].
  - apply (bool_decide_unpack _); vm_compute; exact I.
  - exact (H (VObj 0)).
Defined.

Lemma wrapReference_round_trip_witness :
  ∃ out s',
    wrapReference demo_world (VObj 0) true demo_state = (Ok out, s') ∧
    unwrapReference demo_world (heap s') out = Ok (VObj 0).
Proof.
  destruct (wrapReference_round_trip demo_world demo_state) as [_ H].
  - apply (bool_decide_unpack _); vm_compute; exact I.
  - destruct (H (VObj 0) 0 true) as (out & s' & Hw & Hu & _).
    + vm_compute; reflexivity.
    + left. reflexivity.
    + exists out, s'. split; [exact Hw|exact Hu].
Defined.

Lemma set_is_idempotent_witness :
  set demo_world 3 (VObj 1) demo_repointed = (Ok tt, demo_repointed).
Proof.
  apply (set_is_idempotent demo_world demo_created 3 (VObj 1) demo_repointed).
  - apply (bool_decide_unpack _); vm_compute; exact I.
  - vm_compute; reflexivity.
Defined.

Lemma failed_set_leaves_the_Reference_repointed_witness :
  ∃ message s',
    set demo_world 3 VNull demo_created = (Throw (TypeError message), s') ∧
    unwrap 3 s' = (Ok VNull, s').
Proof.
  destruct (failed_set_leaves_the_Reference_repointed demo_world demo_created 3 VNull
              (VObj 0) {["id" := PkGetter "id"]})
    as (message & s' & Hset & _ & Hu & _).
  - vm_compute; reflexivity.
  - intros l. discriminate.
  - exists message, s'. split; [exact Hset|exact Hu].
Defined.

Lemma set_then_getEntity_witness :
  ∃ l fields w,
    unwrapReference demo_world (heap demo_created) (VObj 1) = Ok (VObj l) ∧
    heap demo_created !! l = Some (OEntity fields w) ∧
    isInitialized 3 demo_repointed = (Ok (__initialized w), demo_repointed).
Proof.
  destruct (set_then_getEntity demo_world demo_created 3 (VObj 1) demo_repointed)
    as (l & fields & w & Hu & Hl & Hi & _).
  - apply (bool_decide_unpack _); vm_compute; exact I.
  - vm_compute; reflexivity.
  - exists l, fields, w. split; [exact Hu|]. split; [exact Hl|exact Hi].
Defined.

Lemma getEntity_after_load_witness :
  getEntity demo_world 3 demo_loaded = (Ok (VObj 0), demo_loaded).
Proof.
  destruct (getEntity_after_load demo_world demo_created 3 VUndefined (VObj 0)
              demo_loaded) as [H _].
  - vm_compute; reflexivity.
  - vm_compute; reflexivity.
  - destruct (H eq_refl) as [Hget _]. exact Hget.
Defined.

Lemma load_forwards_options_witness :
  trace (snd (load demo_world 3 (VObj 2) demo_created))
  = (trace demo_created
       ++ [EvInit 0 VUndefined (VBool true) VUndefined VUndefined])%list.
Proof.
  destruct (load_forwards_options demo_world demo_created 3 0
              {["id" := PkGetter "id"]} {["id" := VNum 7]}
              (with_reference (fresh_helper author_meta false) (Some 3)) (VObj 2))
    as [H _].
  - vm_compute; reflexivity.
  - vm_compute; reflexivity.
  - reflexivity.
  - destruct (H 2 {["populate" := VBool true]} eq_refl) as [Htr _].
    + vm_compute; reflexivity.
    + exact Htr.
Defined.

Lemma load_null_throws_witness :
  ∃ message s1,
    load demo_world 3 VNull demo_created = (Throw (TypeError message), s1) ∧
    fetches s1 = S (fetches demo_created).
Proof.
  destruct (load_null_throws demo_world demo_created 3 0
              {["id" := PkGetter "id"]} {["id" := VNum 7]}
              (with_reference (fresh_helper author_meta false) (Some 3)))
    as [_ H].
  - vm_compute; reflexivity.
  - vm_compute; reflexivity.
  - destruct (H eq_refl
                (snd (demo_init 0 VUndefined VUndefined VUndefined VUndefined
                        (heap demo_created))))
      as (message & s1 & Hload & _ & Hf).
    + vm_compute; reflexivity.
    + exists message, s1. split; [exact Hload|exact Hf].
Defined.

Lemma load_issues_at_most_one_fetch_witness :
  (fetches (snd (load demo_world 3 VUndefined demo_created))
   ≤ S (fetches demo_created))%nat.
Proof.
  destruct (load_issues_at_most_one_fetch demo_world demo_created 3 VUndefined)
    as [H _].
  exact H.
Defined.

Lemma wrapper_exposes_identifiers_only_witness :
  ∃ this s',
    new_Reference demo_world (VObj 1) demo_state = (Ok this, s') ∧
    read_accessor demo_world this "id" s' = (Ok (VNum 8), s') ∧
    read_accessor demo_world this "name" s' = (Ok VUndefined, s') ∧
    get_prop demo_world (heap s') (VObj 1) "name" = Ok (VStr "Bob").
Proof.
  destruct (wrapper_exposes_identifiers_only demo_world demo_state 1
              (<["name" := VStr "Bob"]> {["id" := VNum 8]})
              (fresh_helper author_meta true))
    as (this & s' & Hnew & _ & Hpk & _ & Hother).
  - apply (bool_decide_unpack _); vm_compute; exact I.
  - vm_compute; reflexivity.
  - vm_compute; reflexivity.
  - exists this, s'. split; [exact Hnew|]. split.
    + apply (Hpk "id"). apply (bool_decide_unpack _); vm_compute; exact I.
    + apply (Hother "name").
      * apply (bool_decide_unpack _); vm_compute; exact I.
      * discriminate.
      * apply (bool_decide_unpack _); vm_compute; exact I.
      * apply (bool_decide_unpack _); vm_compute; exact I.
Defined.

Lemma constructor_rejects_a_repeated_key_witness :
  ∃ s', new_Reference demo_world (VObj 0) composite_state
        = (Throw (TypeError "Cannot redefine property: number"), s').
Proof.
  destruct (constructor_rejects_a_repeated_key demo_world composite_state 0
              (<["number" := VNum 1]> {["shop" := VNum 2]})
              (fresh_helper composite_meta true) "number")
    as (s' & Hnew & _).
  - apply (bool_decide_unpack _); vm_compute; exact I.
  - vm_compute; reflexivity.
  - apply (bool_decide_unpack _); vm_compute; exact I.
  - apply (bool_decide_unpack _); vm_compute; exact I.
  - reflexivity.
  - discriminate.
  - apply (bool_decide_unpack _); vm_compute; exact I.
  - discriminate.
  - exists s'. exact Hnew.
Defined.

Lemma constructor_forgets_the_canonical_Reference_witness :
  create demo_world (VObj 0) demo_created = (Ok (VObj 3), demo_created) ∧
  ∃ this s1 r2 s2,
    new_Reference demo_world (VObj 0) demo_created = (Ok this, s1) ∧
    create demo_world (VObj 0) s1 = (Ok (VObj r2), s2) ∧
    r2 ≠ 3 ∧ r2 ≠ this.
Proof.
  destruct (constructor_forgets_the_canonical_Reference demo_world demo_created 0
              {["id" := VNum 7]}
              (with_reference (fresh_helper author_meta false) (Some 3)) 3)
    as (Hc & this & s1 & r2 & s2 & Hnew & _ & Hc2 & _ & Hne & Hne' & _).
  - apply (bool_decide_unpack _); vm_compute; exact I.
  - vm_compute; reflexivity.
  - vm_compute; reflexivity.
  - reflexivity.
  - exists {["id" := PkGetter "id"]}. vm_compute; reflexivity.
  - split; [exact Hc|]. exists this, s1, r2, s2.
    split; [exact Hnew|]. split; [exact Hc2|]. split; [exact Hne|exact Hne'].
Defined.


Lemma ref_is_create_on_ordered_handles_witness :
  ref demo_world (AValue (VObj 0)) VUndefined demo_state
  = create demo_world (VObj 0) demo_state.
Proof.
  destruct (ref_is_create_on_ordered_handles demo_world demo_state (VObj 0) 0)
    as [H _].
  - apply (bool_decide_unpack _); vm_compute; exact I.
  - vm_compute; reflexivity.
  - exists {["id" := VNum 7]}, (fresh_helper author_meta false).
    split; [vm_compute; reflexivity|]. intros r Hr. discriminate Hr.
  - left. reflexivity.
  - apply (H VUndefined). reflexivity.
Defined.

Lemma ref_calls_the_factory_only_for_identifiers_witness :
  ref demo_world (AClass "Author") VNull demo_state = (Ok VNull, demo_state).
Proof.
  destruct (ref_calls_the_factory_only_for_identifiers demo_world demo_state VNull)
    as (_ & _ & H & _).
  apply (H "Author"). reflexivity.
Defined.

Lemma ref_returns_a_repointed_Reference_witness :
  ref demo_world (AValue (VObj 0)) VUndefined demo_repointed
  = (Ok (VObj 3), demo_repointed) ∧
  unwrap 3 demo_repointed = (Ok (VObj 1), demo_repointed).
Proof.
  destruct (ref_returns_a_repointed_Reference demo_world demo_repointed 0 3
              {["id" := VNum 7]}
              (with_reference (fresh_helper author_meta false) (Some 3))
              (VObj 1) {["id" := PkGetter "id"]} VUndefined)
    as (Href & Hu & _).
  - apply (bool_decide_unpack _); vm_compute; exact I.
  - vm_compute; reflexivity.
  - reflexivity.
  - vm_compute; reflexivity.
  - discriminate.
  - reflexivity.
  - split; [exact Href|exact Hu].
Defined.

Lemma populated_delegates_witness :
  fetches (snd (populated demo_world 3 (VBool true) demo_created))
  = fetches demo_created.
Proof.
  destruct (populated_delegates demo_world demo_created 3 (VObj 0)
              {["id" := PkGetter "id"]} (VBool true)) as [H _].
  - vm_compute; reflexivity.
  - destruct (H 0 {["id" := VNum 7]}
                (with_reference (fresh_helper author_meta false) (Some 3)) eq_refl)
      as (_ & Hf & _).
    + vm_compute; reflexivity.
    + exact Hf.
Defined.

Lemma isReference_goes_by_the_marker_witness :
  unwrapReference demo_world marked_heap (VObj 0)
  = Throw (TypeError "ref.unwrap is not a function") ∧
  wrapReference demo_world (VObj 0) true {| heap := marked_heap; trace := [] |}
  = (Ok (VObj 0), {| heap := marked_heap; trace := [] |}).
Proof.
  destruct (isReference_goes_by_the_marker demo_world
              {| heap := marked_heap; trace := [] |} 0
              {["__reference" := VBool true]})
    as (_ & Hu & Hw & _).
  - right. vm_compute; reflexivity.
  - reflexivity.
  - split; [exact Hu|exact (Hw true)].
Defined.

Lemma configure_sets_the_fallback_only_when_unset_witness :
  env (snd (configure demo_loader preset_cli)) = env preset_cli.
Proof.
  destruct (configure_sets_the_fallback_only_when_unset demo_loader preset_cli)
    as (_ & H & _).
  - split; [|split; [|split]]; intros ?; try intros ?; reflexivity.
  - apply (H ""). vm_compute; reflexivity.
Defined.

Lemma configure_checks_the_version_first_witness :
  configure failing_loader demo_cli
  = (Throw (Error "Bad @mikro-orm/core version"),
     {| env := ∅; calls := [EvCheckPackageVersion] |}).
Proof.
  destruct (configure_checks_the_version_first failing_loader demo_cli) as [H _].
  apply (H (Error "Bad @mikro-orm/core version") ∅). reflexivity.
Defined.

Lemma load_returns_property_or_handle_witness :
  ∃ e, unwrap 1 odd_state = (Ok e, odd_state) ∧
       get_prop demo_world (heap odd_state) e "id" = Ok (VNum 1).
Proof.
  destruct (load_returns_property_or_handle demo_world odd_state 1 (VStr "id"))
    as [Hreturns _].
  destruct (Hreturns (VNum 1) odd_state ltac:(vm_compute; reflexivity))
    as (e & He & _ & Hkey & _).
  exists e. split; [exact He|]. by apply Hkey.
Defined.
